(** * checkout.md credential wallet: the request-authorization core

    A shallow embedding of the TypeScript sources
      - src/policy/types.ts   (zod schemas of the policy document)
      - src/policy/loader.ts  (PolicyLoader)
      - src/policy/engine.ts  (PolicyEngine)
      - src/audit/logger.ts   (AuditLogger)
      - src/token-store.ts    (TokenStore)
      - src/vault/vault.ts    (Vault)
      - src/tools/request-credential.ts (the request pipeline)
      - src/tools/report-usage.ts (the usage report)
    followed by the properties the specification states about them.

    What the sources take from their runtime is kept abstract and passed in:
    JavaScript numbers ([JsNumber]), the CEL evaluator ([CelRuntime]),
    [JSON.parse] ([JsonRuntime]) and node's crypto ([NodeCrypto]).  Clock
    readings and fresh UUIDs are explicit inputs of the operations that
    read them. *)

From Stdlib Require Import ZArith String Ascii List Bool Lia Sorted.
From stdpp Require Import gmap strings list pretty.

Local Open Scope Z_scope.
Local Open Scope string_scope.

(** ** JavaScript runtime *)

(** JavaScript numbers, as far as the sources use them.  Every theorem below
    holds for any implementation of these operations, IEEE doubles included;
    the examples run on integers. *)
Class JsNumber (num : Type) := {
  num_zero : num;                      (* the literal 0 *)
  num_add : num -> num -> num;         (* a + b *)
  num_gt : num -> num -> bool;         (* a > b *)
  num_as_int : num -> option Z;        (* Some z exactly when Number.isInteger *)
  num_to_string : num -> string;       (* String(n), also inside a template literal *)
}.

(** JSON-like values: what [JSON.parse] and the YAML parser hand to the code.
    An object lists its properties in insertion order. *)
#[warnings="-register-all"] Inductive json (num : Type) : Type :=
  | JNull
  | JBool (b : bool)
  | JNum (n : num)
  | JStr (s : string)
  | JArr (l : list (json num))
  | JObj (o : list (string * json num)).
Arguments JNull {num}.
Arguments JBool {num} b.
Arguments JNum {num} n.
Arguments JStr {num} s.
Arguments JArr {num} l.
Arguments JObj {num} o.

(** [Map.prototype.get], also property lookup on an object. *)
Fixpoint Map_get {V : Type} (k : string) (m : list (string * V)) : option V :=
  match m with
  | [] => None
  | (k', v) :: m' => if String.eqb k' k then Some v else Map_get k m'
  end.

(** [Map.prototype.set]: a key that is already present keeps its place and
    takes the new value; a new key goes to the end. *)
Fixpoint Map_set {V : Type} (k : string) (v : V) (m : list (string * V))
  : list (string * V) :=
  match m with
  | [] => [(k, v)]
  | (k', v') :: m' =>
      if String.eqb k' k then (k, v) :: m' else (k', v') :: Map_set k v m'
  end.

(** [Array.from(map.values())]. *)
Definition Map_values {V : Type} (m : list (string * V)) : list V := map snd m.

(** Object spread [{...base, ...extra}]. *)
Definition obj_spread {V : Type} (base extra : list (string * V))
  : list (string * V) :=
  fold_left (fun o kv => Map_set (fst kv) (snd kv) o) extra base.

(** [Array.prototype.includes] on an array of strings. *)
Definition includes (l : list string) (x : string) : bool :=
  existsb (String.eqb x) l.

(** [String.prototype.includes]. *)
Fixpoint str_includes (needle hay : string) : bool :=
  String.prefix needle hay
  || match hay with
     | EmptyString => false
     | String _ hay' => str_includes needle hay'
     end.

(** Truthiness of a string: every string but the empty one. *)
Definition str_truthy (s : string) : bool :=
  match s with EmptyString => false | String _ _ => true end.

(** [String.prototype.slice(0, n)]. *)
Definition str_take (n : nat) (s : string) : string := String.substring 0 n s.

(** The time values a [Date] can hold: 8.64e15 ms either side of the epoch.
    [new Date(ms).toISOString()] throws a [RangeError] for any other [ms]. *)
Definition Date_in_range (ms : Z) : bool := (Z.abs ms <=? 8640000000000000)%Z.

(** ** src/types.ts *)

(** [string | string[]] *)
Inductive str_or_list : Type :=
  | One (s : string)
  | Many (l : list string).

Record PolicyScope : Type := {
  gt_agent_id : option str_or_list;
  gt_skill_id : option str_or_list;
}.

Record PolicyBudget (num : Type) : Type := {
  max_per_transaction : option num;
  max_per_month : option num;
  currency : option string;
}.
Arguments max_per_transaction {num} _.
Arguments max_per_month {num} _.
Arguments currency {num} _.

Record Policy (num : Type) : Type := {
  pol_name : string;
  pol_description : option string;
  pol_credential : string;
  pol_grant_to : PolicyScope;
  pol_deny : option (list string);
  pol_actions : option (list string);
  pol_budget : option (PolicyBudget num);
  pol_approval_threshold : option num;
  pol_condition : option string;
  pol_scope : option (list (string * json num));
  pol_ttl : option Z;
}.
Arguments pol_name {num} _.
Arguments pol_description {num} _.
Arguments pol_credential {num} _.
Arguments pol_grant_to {num} _.
Arguments pol_deny {num} _.
Arguments pol_actions {num} _.
Arguments pol_budget {num} _.
Arguments pol_approval_threshold {num} _.
Arguments pol_condition {num} _.
Arguments pol_scope {num} _.
Arguments pol_ttl {num} _.

Record PolicyFile (num : Type) : Type := {
  pf_version : string;
  pf_policies : list (Policy num);
}.
Arguments pf_version {num} _.
Arguments pf_policies {num} _.

Inductive PolicyDecision : Type := allow | deny | require_approval.

Record PolicyEvalResult (num : Type) : Type := {
  decision : PolicyDecision;
  reason : string;
  res_scope : option (list (string * json num));
  res_policy_name : option string;
}.
Arguments decision {num} _.
Arguments reason {num} _.
Arguments res_scope {num} _.
Arguments res_policy_name {num} _.

Record CredentialRequest (num : Type) : Type := {
  req_credential_name : string;
  req_agent_id : string;
  req_skill_id : option string;
  req_purpose : string;
  req_amount : option num;
  req_currency : option string;
  req_action : option string;
  req_context : option (list (string * json num));
}.
Arguments req_credential_name {num} _.
Arguments req_agent_id {num} _.
Arguments req_skill_id {num} _.
Arguments req_purpose {num} _.
Arguments req_amount {num} _.
Arguments req_currency {num} _.
Arguments req_action {num} _.
Arguments req_context {num} _.

(** ** src/policy/engine.ts *)

(** What [evaluate] observes of a call of cel-js's [evaluate]: the result is
    [true], or it is some other value (with its [String(result)]), or the
    call throws (with the message of the error). *)
Inductive cel_outcome : Type :=
  | CelTrue
  | CelOther (shown : string)
  | CelThrows (message : string).

Class CelRuntime (num : Type) := {
  celEvaluate : string -> list (string * json num) -> cel_outcome;
}.

(** [Array.isArray(g) ? g : [g]] *)
Definition as_array (g : str_or_list) : list string :=
  match g with One s => [s] | Many l => l end.

(** [if (g) { const xs = Array.isArray(g) ? g : [g]; ... }]: the array the
    scope check runs on, when [g] is truthy.  An array is always truthy, a
    string when it is not empty, [undefined] never. *)
Definition scope_truthy (g : option str_or_list) : option (list string) :=
  match g with
  | Some (One s) => if str_truthy s then Some (as_array (One s)) else None
  | Some (Many l) => Some (as_array (Many l))
  | None => None
  end.

Module PolicyEngine.
Section Engine.
Context {num : Type} `{JsNumber num} `{CelRuntime num}.

Definition celContext (request : CredentialRequest num)
  : list (string * json num) :=
  obj_spread
    [ ("agent_id", JStr (req_agent_id request));
      ("skill_id", JStr (default EmptyString (req_skill_id request)));
      ("purpose", JStr (req_purpose request));
      ("amount", JNum (default num_zero (req_amount request)));
      ("currency", JStr (default EmptyString (req_currency request)));
      ("action", JStr (default EmptyString (req_action request))) ]
    (default [] (req_context request)).

Definition denied (policy : Policy num) (why : string) : PolicyEvalResult num :=
  {| decision := deny; reason := why;
     res_scope := None; res_policy_name := Some (pol_name policy) |}.

(** Steps 1 to 4 of [evaluate]: deny list, agent scope, skill scope,
    actions.  [None] when all four pass. *)
Definition evaluate_scope (policy : Policy num) (request : CredentialRequest num)
  : option (PolicyEvalResult num) :=
  (* 1. Check deny list *)
  if match pol_deny policy with
     | Some l => includes l (req_agent_id request)
     | None => false
     end
  then Some (denied policy
         ("Agent '" +:+ req_agent_id request +:+
          "' is explicitly denied by policy '" +:+ pol_name policy +:+ "'."))
  else
  (* 2. Check grant_to.agent_id *)
  if match scope_truthy (gt_agent_id (pol_grant_to policy)) with
     | Some agents =>
         negb (includes agents "*") && negb (includes agents (req_agent_id request))
     | None => false
     end
  then Some (denied policy
         ("Agent '" +:+ req_agent_id request +:+
          "' is not granted access by policy '" +:+ pol_name policy +:+ "'."))
  else
  (* 3. Check grant_to.skill_id *)
  if match req_skill_id request, scope_truthy (gt_skill_id (pol_grant_to policy)) with
     | Some skill, Some skills =>
         str_truthy skill
         && negb (includes skills "*") && negb (includes skills skill)
     | _, _ => false
     end
  then Some (denied policy
         ("Skill '" +:+ default EmptyString (req_skill_id request) +:+
          "' is not granted access by policy '" +:+ pol_name policy +:+ "'."))
  else
  (* 4. Check actions allow list *)
  if match pol_actions policy, req_action request with
     | Some actions, Some action => str_truthy action && negb (includes actions action)
     | _, _ => false
     end
  then Some (denied policy
         ("Action '" +:+ default EmptyString (req_action request) +:+
          "' is not allowed by policy '" +:+ pol_name policy +:+ "'."))
  else None.

(** Steps 5 to 7: the two budget limits and the approval threshold. *)
Definition evaluate_amount (policy : Policy num) (request : CredentialRequest num)
    (monthlySpending : option num) : option (PolicyEvalResult num) :=
  (* 5. Check budget: max_per_transaction *)
  if match pol_budget policy ≫= max_per_transaction, req_amount request with
     | Some limit, Some amount => num_gt amount limit
     | _, _ => false
     end
  then Some (denied policy
         ("Amount $" +:+ from_option num_to_string EmptyString (req_amount request) +:+
          " exceeds max per transaction $" +:+
          from_option num_to_string EmptyString
            (pol_budget policy ≫= max_per_transaction) +:+ "."))
  else
  (* 6. Check budget: max_per_month *)
  let monthlySpent := default num_zero monthlySpending in
  if match pol_budget policy ≫= max_per_month, req_amount request with
     | Some limit, Some amount => num_gt (num_add monthlySpent amount) limit
     | _, _ => false
     end
  then Some (denied policy
         ("Amount $" +:+ from_option num_to_string EmptyString (req_amount request) +:+
          " would exceed monthly budget. Spent: $" +:+ num_to_string monthlySpent +:+
          ", limit: $" +:+
          from_option num_to_string EmptyString
            (pol_budget policy ≫= max_per_month) +:+ "."))
  else
  (* 7. Check approval threshold *)
  if match pol_approval_threshold policy, req_amount request with
     | Some threshold, Some amount => num_gt amount threshold
     | _, _ => false
     end
  then Some {| decision := require_approval;
               reason :=
                 "Amount $" +:+
                 from_option num_to_string EmptyString (req_amount request) +:+
                 " exceeds approval threshold $" +:+
                 from_option num_to_string EmptyString
                   (pol_approval_threshold policy) +:+ ".";
               res_scope := pol_scope policy;
               res_policy_name := Some (pol_name policy) |}
  else None.

(** Step 8: the optional CEL condition. *)
Definition evaluate_condition (policy : Policy num) (request : CredentialRequest num)
  : option (PolicyEvalResult num) :=
  match pol_condition policy with
  | Some condition =>
      if str_truthy condition then
        match celEvaluate condition (celContext request) with
        | CelTrue => None
        | CelOther shown =>
            Some (denied policy
              ("CEL condition '" +:+ condition +:+ "' evaluated to " +:+ shown +:+ "."))
        | CelThrows message =>
            Some (denied policy ("CEL evaluation error: " +:+ message))
        end
      else None
  | None => None
  end.

Definition evaluate (policy : Policy num) (request : CredentialRequest num)
    (monthlySpending : option num) : PolicyEvalResult num :=
  match evaluate_scope policy request with
  | Some r => r
  | None =>
  match evaluate_amount policy request monthlySpending with
  | Some r => r
  | None =>
  match evaluate_condition policy request with
  | Some r => r
  | None =>
      (* All checks passed *)
      {| decision := allow;
         reason := "All policy checks passed.";
         res_scope := pol_scope policy;
         res_policy_name := Some (pol_name policy) |}
  end end end.

(** The [for ... of matching] loop of [evaluateFirst]: [Some] at the first
    policy whose result is [allow] or [require_approval]. *)
Fixpoint evaluateFirst_loop (matching : list (Policy num))
    (request : CredentialRequest num) (monthlySpending : option num)
  : option (PolicyEvalResult num) :=
  match matching with
  | [] => None
  | policy :: rest =>
      let result := evaluate policy request monthlySpending in
      match decision result with
      | allow => Some result
      | require_approval => Some result
      | deny => evaluateFirst_loop rest request monthlySpending
      end
  end.

Definition evaluateFirst (policies : list (Policy num))
    (request : CredentialRequest num) (monthlySpending : option num)
  : PolicyEvalResult num :=
  let matching :=
    filter (fun p => pol_credential p = req_credential_name request) policies in
  match last matching with
  | None =>
      {| decision := deny;
         reason := "No policy found for credential '" +:+
                   req_credential_name request +:+ "'.";
         res_scope := None; res_policy_name := None |}
  | Some final =>
      match evaluateFirst_loop matching request monthlySpending with
      | Some result => result
      | None =>
          (* All policies denied: return the last denial *)
          evaluate final request monthlySpending
      end
  end.
End Engine.
End PolicyEngine.

(** ** src/policy/types.ts: the zod schemas *)

(** A schema is modelled by its [parse]: [None] when zod throws a ZodError.
    [z.object] is used without [.strict()], so a key the schema does not
    name is dropped from the parsed value (zod's default for objects), and a
    property is read with [Map_get]. *)
Module Zod.
Section Schemas.
Context {num : Type} `{JsNumber num}.

(** [z.string()] *)
Definition string_ (v : json num) : option string :=
  match v with JStr s => Some s | _ => None end.

(** [z.string().min(1)] *)
Definition string_min1 (v : json num) : option string :=
  s ← string_ v; if str_truthy s then Some s else None.

(** [z.number().positive()] *)
Definition number_positive (v : json num) : option num :=
  match v with
  | JNum n => if num_gt n num_zero then Some n else None
  | _ => None
  end.

(** [z.number().int().positive()] *)
Definition number_int_positive (v : json num) : option Z :=
  n ← number_positive v;
  z ← num_as_int n;
  Some z.

(** [z.array(elem)] *)
Definition array {T : Type} (elem : json num -> option T) (v : json num)
  : option (list T) :=
  match v with JArr l => mapM elem l | _ => None end.

(** [schema.optional()], applied to the property read from the object:
    an absent property parses to [undefined]. *)
Definition optional {T : Type} (schema : json num -> option T)
    (v : option (json num)) : option (option T) :=
  match v with
  | None => Some None
  | Some x => t ← schema x; Some (Some t)
  end.

(** a property without [.optional()] *)
Definition required {T : Type} (schema : json num -> option T)
    (v : option (json num)) : option T :=
  x ← v; schema x.

(** [z.union([z.string(), z.array(z.string())])] *)
Definition string_or_strings (v : json num) : option str_or_list :=
  match string_ v with
  | Some s => Some (One s)
  | None => l ← array string_ v; Some (Many l)
  end.

(** [z.record(z.unknown())] *)
Definition record_unknown (v : json num) : option (list (string * json num)) :=
  match v with JObj o => Some o | _ => None end.

Definition PolicyScopeSchema (v : json num) : option PolicyScope :=
  match v with
  | JObj o =>
      agent ← optional string_or_strings (Map_get "agent_id" o);
      skill ← optional string_or_strings (Map_get "skill_id" o);
      Some {| gt_agent_id := agent; gt_skill_id := skill |}
  | _ => None
  end.

Definition PolicyBudgetSchema (v : json num) : option (PolicyBudget num) :=
  match v with
  | JObj o =>
      per_tx ← optional number_positive (Map_get "max_per_transaction" o);
      per_month ← optional number_positive (Map_get "max_per_month" o);
      cur ← optional string_ (Map_get "currency" o);
      Some {| max_per_transaction := per_tx; max_per_month := per_month;
              currency := cur |}
  | _ => None
  end.

Definition PolicySchema (v : json num) : option (Policy num) :=
  match v with
  | JObj o =>
      name ← required string_min1 (Map_get "name" o);
      description ← optional string_ (Map_get "description" o);
      credential ← required string_min1 (Map_get "credential" o);
      grant_to ← required PolicyScopeSchema (Map_get "grant_to" o);
      deny_ ← optional (array string_) (Map_get "deny" o);
      actions ← optional (array string_) (Map_get "actions" o);
      budget ← optional PolicyBudgetSchema (Map_get "budget" o);
      approval_threshold ← optional number_positive (Map_get "approval_threshold" o);
      condition ← optional string_ (Map_get "condition" o);
      scope ← optional record_unknown (Map_get "scope" o);
      ttl ← optional number_int_positive (Map_get "ttl" o);
      Some {| pol_name := name; pol_description := description;
              pol_credential := credential; pol_grant_to := grant_to;
              pol_deny := deny_; pol_actions := actions; pol_budget := budget;
              pol_approval_threshold := approval_threshold;
              pol_condition := condition; pol_scope := scope; pol_ttl := ttl |}
  | _ => None
  end.

Definition PolicyFileSchema (v : json num) : option (PolicyFile num) :=
  match v with
  | JObj o =>
      version ← required string_ (Map_get "version" o);
      policies ← required (array PolicySchema) (Map_get "policies" o);
      Some {| pf_version := version; pf_policies := policies |}
  | _ => None
  end.
End Schemas.
End Zod.

(** ** src/policy/loader.ts *)

Module PolicyLoader.
Section Loader.
Context {num : Type} `{JsNumber num}.

(** [private policies: Map<string, Policy>], in insertion order. *)
Definition t : Type := list (string * Policy num).

(** [new PolicyLoader()] *)
Definition new : t := [].

(** [this.policies.set(policy.name, policy)] *)
Definition set_policy (self : t) (policy : Policy num) : t :=
  Map_set (pol_name policy) policy self.

(** [this.policies.clear(); for (const policy of validated.policies) ...] *)
Definition set_all (policies : list (Policy num)) : t :=
  fold_left set_policy policies [].

(** [loadFromObject]: [None] when [PolicyFileSchema.parse] throws, which
    leaves the loader as it was. *)
Definition loadFromObject (data : json num) : option t :=
  validated ← Zod.PolicyFileSchema data;
  Some (set_all (pf_policies validated)).

Definition getPolicy (self : t) (name : string) : option (Policy num) :=
  Map_get name self.

Definition listPolicies (self : t) : list (Policy num) := Map_values self.

(** The callback of the [filter] in [listPoliciesForAgent]. *)
Definition grants (agentId : string) (skillId : option string)
    (policy : Policy num) : bool :=
  (* Check deny list first *)
  if match pol_deny policy with
     | Some l => includes l agentId
     | None => false
     end
  then false else
  (* Check grant_to.agent_id *)
  if match scope_truthy (gt_agent_id (pol_grant_to policy)) with
     | Some agents => negb (includes agents "*") && negb (includes agents agentId)
     | None => false
     end
  then false else
  (* Check grant_to.skill_id if specified *)
  if match skillId, scope_truthy (gt_skill_id (pol_grant_to policy)) with
     | Some skill, Some skills =>
         str_truthy skill && negb (includes skills "*") && negb (includes skills skill)
     | _, _ => false
     end
  then false
  else true.

Definition listPoliciesForAgent (self : t) (agentId : string)
    (skillId : option string) : list (Policy num) :=
  List.filter (grants agentId skillId) (listPolicies self).
End Loader.
End PolicyLoader.

(** ** src/audit/logger.ts *)

Inductive AuditEvent : Type :=
  | credential_requested
  | credential_granted
  | credential_denied
  | credential_used
  | approval_required
  | token_expired
  | vault_unlocked
  | vault_locked
  | credential_added
  | credential_removed.

Definition AuditEvent_eqb (a b : AuditEvent) : bool :=
  match a, b with
  | credential_requested, credential_requested
  | credential_granted, credential_granted
  | credential_denied, credential_denied
  | credential_used, credential_used
  | approval_required, approval_required
  | token_expired, token_expired
  | vault_unlocked, vault_unlocked
  | vault_locked, vault_locked
  | credential_added, credential_added
  | credential_removed, credential_removed => true
  | _, _ => false
  end.

Record AuditEntry (num : Type) : Type := {
  aud_timestamp : string;
  aud_event : AuditEvent;
  aud_policy : option string;
  aud_agent_id : option string;
  aud_skill_id : option string;
  aud_purpose : option string;
  aud_token_id : option string;
  aud_credential_name : option string;
  aud_scope : option (list (string * json num));
  aud_context : option (list (string * json num));
  aud_outcome : option string;
  aud_approval : option string;
  aud_details : option string;
}.
Arguments aud_timestamp {num} _.
Arguments aud_event {num} _.
Arguments aud_policy {num} _.
Arguments aud_agent_id {num} _.
Arguments aud_skill_id {num} _.
Arguments aud_purpose {num} _.
Arguments aud_token_id {num} _.
Arguments aud_credential_name {num} _.
Arguments aud_scope {num} _.
Arguments aud_context {num} _.
Arguments aud_outcome {num} _.
Arguments aud_approval {num} _.
Arguments aud_details {num} _.

(** A row of the table [audit_log] (src/audit/schema.ts); the columns
    [scope] and [context] hold JSON text. *)
Record AuditRow : Type := {
  row_id : Z;
  row_timestamp : string;
  row_event : AuditEvent;
  row_policy : option string;
  row_agent_id : option string;
  row_skill_id : option string;
  row_purpose : option string;
  row_token_id : option string;
  row_credential_name : option string;
  row_scope : option string;
  row_context : option string;
  row_outcome : option string;
  row_approval : option string;
  row_details : option string;
}.

Class JsonRuntime (num : Type) := {
  JSON_parse : string -> option (json num);     (* None: throws a SyntaxError *)
  JSON_stringify : json num -> string;
  JSON_parse_empty : JSON_parse EmptyString = None;   (* the empty text is no JSON *)
}.

(** ASCII upper case to lower case; SQLite's LIKE ignores the case of ASCII
    letters. *)
Definition ascii_lower (c : ascii) : ascii :=
  let n := nat_of_ascii c in
  if (Nat.leb 65 n && Nat.leb n 90)%bool then ascii_of_nat (n + 32) else c.

(** The bytes 10xxxxxx that go on a UTF-8 character begun before them. *)
Definition utf8_continues (c : ascii) : bool :=
  let n := nat_of_ascii c in (Nat.leb 128 n && Nat.ltb n 192)%bool.

(** [text] from its next character on. *)
Fixpoint utf8_next (text : string) : string :=
  match text with
  | String c text' => if utf8_continues c then utf8_next text' else text
  | EmptyString => EmptyString
  end.

(** SQLite's [text LIKE pattern] without ESCAPE: [%] stands for any run of
    characters, [_] for any one character (all the bytes of its UTF-8
    encoding), a letter for itself in either case. *)
Fixpoint sql_like (pattern text : string) : bool :=
  match pattern with
  | EmptyString =>
      match text with EmptyString => true | String _ _ => false end
  | String c pattern' =>
      if Ascii.eqb c "%" then
        (fix any_run (t : string) : bool :=
           sql_like pattern' t
           || match t with
              | EmptyString => false
              | String _ t' => any_run t'
              end) text
      else
        match text with
        | EmptyString => false
        | String d text' =>
            if Ascii.eqb c "_" then sql_like pattern' (utf8_next text')
            else Ascii.eqb (ascii_lower c) (ascii_lower d)
                 && sql_like pattern' text'
        end
  end.

Module AuditLogger.
Section Logger.
Context {num : Type} `{JsNumber num} `{JsonRuntime num}.

(** The table [audit_log], oldest row first. *)
Definition t : Type := list AuditRow.

(** [log]: INSERT only.  [now] is the reading of [new Date().toISOString()]
    that stands in for an empty [entry.timestamp].  Rows are never deleted,
    so AUTOINCREMENT numbers them 1, 2, 3, ... *)
Definition log (entry : AuditEntry num) (now : string) (self : t) : t * Z :=
  let id := Z.of_nat (length self) + 1 in
  ((self ++
   [{| row_id := id;
       row_timestamp :=
         if str_truthy (aud_timestamp entry) then aud_timestamp entry else now;
       row_event := aud_event entry;
       row_policy := aud_policy entry;
       row_agent_id := aud_agent_id entry;
       row_skill_id := aud_skill_id entry;
       row_purpose := aud_purpose entry;
       row_token_id := aud_token_id entry;
       row_credential_name := aud_credential_name entry;
       row_scope := (fun o => JSON_stringify (JObj o)) <$> aud_scope entry;
       row_context := (fun o => JSON_stringify (JObj o)) <$> aud_context entry;
       row_outcome := aud_outcome entry;
       row_approval := aud_approval entry;
       row_details := aud_details entry |}])%list,
   id).

(** The WHERE clause of [getMonthlySpending]:
    [event = 'credential_used' AND credential_name = ? AND timestamp LIKE ?] *)
Definition spending_where (credentialName pattern : string) (row : AuditRow) : bool :=
  AuditEvent_eqb (row_event row) credential_used
  && match row_credential_name row with
     | Some c => String.eqb c credentialName
     | None => false
     end
  && sql_like pattern (row_timestamp row).

(** [parsed.amount] when [typeof parsed.amount === "number"].  Reading a
    property of [null] throws, which the [catch] swallows like a parse
    error; on any other value that is not an object the property is
    [undefined]. *)
Definition amount_of (parsed : json num) : option num :=
  match parsed with
  | JObj o =>
      match Map_get "amount" o with
      | Some (JNum n) => Some n
      | _ => None
      end
  | _ => None
  end.

(** The body of [for (const row of rows)]. *)
Definition add_row (total : num) (details : option string) : num :=
  match details with
  | Some d =>
      if str_truthy d then
        match JSON_parse d with
        | Some parsed =>
            match amount_of parsed with
            | Some amount => num_add total amount
            | None => total
            end
        | None => total              (* skip malformed details *)
        end
      else total
  | None => total
  end.

Fixpoint sum_rows (rows : list (option string)) (total : num) : num :=
  match rows with
  | [] => total
  | details :: rest => sum_rows rest (add_row total details)
  end.

(** [getMonthlySpending(credentialName, month?)]; [now] is the reading of
    [new Date().toISOString()] used when [month] is missing or empty. *)
Definition getMonthlySpending (self : t) (credentialName : string)
    (month : option string) (now : string) : num :=
  let targetMonth :=
    match month with
    | Some m => if str_truthy m then m else str_take 7 now
    | None => str_take 7 now
    end in
  let rows :=
    map row_details
      (List.filter (spending_where credentialName (targetMonth +:+ "%")) self) in
  sum_rows rows num_zero.
End Logger.
End AuditLogger.

(** ** src/token-store.ts *)

Record ScopedToken (num : Type) : Type := {
  token_id : string;
  tok_credential_name : string;
  credential_value : string;
  tok_policy_name : string;
  tok_agent_id : string;
  tok_skill_id : option string;
  tok_scope : list (string * json num);
  issued_at : Z;        (* unix ms *)
  expires_at : Z;       (* unix ms *)
  used : bool;
}.
Arguments token_id {num} _.
Arguments tok_credential_name {num} _.
Arguments credential_value {num} _.
Arguments tok_policy_name {num} _.
Arguments tok_agent_id {num} _.
Arguments tok_skill_id {num} _.
Arguments tok_scope {num} _.
Arguments issued_at {num} _.
Arguments expires_at {num} _.
Arguments used {num} _.

(** The argument of [issue]. *)
Record IssueParams (num : Type) : Type := {
  ip_credential_name : string;
  ip_credential_value : string;
  ip_policy_name : string;
  ip_agent_id : string;
  ip_skill_id : option string;
  ip_scope : option (list (string * json num));
  ip_ttl : option Z;    (* seconds *)
}.
Arguments ip_credential_name {num} _.
Arguments ip_credential_value {num} _.
Arguments ip_policy_name {num} _.
Arguments ip_agent_id {num} _.
Arguments ip_skill_id {num} _.
Arguments ip_scope {num} _.
Arguments ip_ttl {num} _.

Module TokenStore.
Section Store.
Context {num : Type}.

(** [issue]; [now] is the reading of [Date.now()] and [uuid] the value of
    [randomUUID()]. *)
Definition issue (params : IssueParams num) (now : Z) (uuid : string)
    (self : gmap string (ScopedToken num))
  : gmap string (ScopedToken num) * ScopedToken num :=
  let ttlMs := default 300 (ip_ttl params) * 1000 in
  let token :=
    {| token_id := uuid;
       tok_credential_name := ip_credential_name params;
       credential_value := ip_credential_value params;
       tok_policy_name := ip_policy_name params;
       tok_agent_id := ip_agent_id params;
       tok_skill_id := ip_skill_id params;
       tok_scope := default [] (ip_scope params);
       issued_at := now;
       expires_at := now + ttlMs;
       used := false |} in
  (<[token_id token := token]> self, token).

(** [get]: [None] is [null]. *)
Definition get (tokenId : string) (now : Z) (self : gmap string (ScopedToken num))
  : gmap string (ScopedToken num) * option (ScopedToken num) :=
  match self !! tokenId with
  | None => (self, None)
  | Some token =>
      if now >=? expires_at token then (delete tokenId self, None)
      else (self, Some token)
  end.

Definition mark (token : ScopedToken num) : ScopedToken num :=
  {| token_id := token_id token;
     tok_credential_name := tok_credential_name token;
     credential_value := credential_value token;
     tok_policy_name := tok_policy_name token;
     tok_agent_id := tok_agent_id token;
     tok_skill_id := tok_skill_id token;
     tok_scope := tok_scope token;
     issued_at := issued_at token;
     expires_at := expires_at token;
     used := true |}.

Definition markUsed (tokenId : string) (self : gmap string (ScopedToken num))
  : gmap string (ScopedToken num) * bool :=
  match self !! tokenId with
  | None => (self, false)
  | Some token => (<[tokenId := mark token]> self, true)
  end.

(** [purgeExpired]: every entry with [now >= token.expires_at] is deleted;
    the number of deleted entries is returned. *)
Definition purgeExpired (now : Z) (self : gmap string (ScopedToken num))
  : gmap string (ScopedToken num) * nat :=
  let live := filter (fun kv => ¬ (now >= expires_at (snd kv))) self in
  (live, size self - size live)%nat.

Definition size_ (now : Z) (self : gmap string (ScopedToken num))
  : gmap string (ScopedToken num) * nat :=
  let self' := fst (purgeExpired now self) in
  (self', size self').
End Store.
End TokenStore.

(** ** src/vault/crypto.ts *)

Abbreviation bytes := (list Byte.byte).

Record EncryptedPayload : Type := {
  ciphertext : bytes;
  iv : bytes;
  authTag : bytes;
}.

(** The primitives crypto.ts takes from node:crypto, @node-rs/argon2 and
    Buffer. *)
Class NodeCrypto := {
  (* the raw hash inside the string argon2's [hash] returns, for
     memoryCost 65536, timeCost 3, parallelism 1, outputLen 32, Argon2id *)
  argon2id : string -> bytes -> bytes;
  (* hkdfSync("sha256", ikm, salt, info, length) *)
  hkdf_sha256 : bytes -> bytes -> bytes -> nat -> bytes;
  (* createCipheriv("aes-256-gcm", key, iv): ciphertext and tag *)
  aes_256_gcm_seal : bytes -> bytes -> bytes -> bytes * bytes;
  (* createDecipheriv, setAuthTag, update, final: None when final() throws *)
  aes_256_gcm_open : bytes -> bytes -> bytes -> bytes -> option bytes;
  (* buf.toString("base64") and Buffer.from(text, "base64") *)
  base64_encode : bytes -> string;
  base64_decode : string -> bytes;
}.

Definition AES_KEY_LENGTH : nat := 32.
Definition HKDF_INFO : bytes := list_byte_of_string "checkout-wallet-v1".

Module Crypto.
Section Primitives.
Context `{NodeCrypto}.

Definition deriveKey (passphrase : string) (salt : bytes) : bytes :=
  let rawHash := argon2id passphrase salt in
  hkdf_sha256 rawHash salt HKDF_INFO AES_KEY_LENGTH.

(** [encrypt]; [nonce] is the value of [randomBytes(IV_LENGTH)].  A string is
    taken as its UTF-8 bytes. *)
Definition encrypt (plaintext : string) (key nonce : bytes) : EncryptedPayload :=
  let sealed := aes_256_gcm_seal key nonce (list_byte_of_string plaintext) in
  {| ciphertext := fst sealed; iv := nonce; authTag := snd sealed |}.

(** [decrypt]: [None] when it throws. *)
Definition decrypt (payload : EncryptedPayload) (key : bytes) : option string :=
  string_of_list_byte <$>
    aes_256_gcm_open key (iv payload) (authTag payload) (ciphertext payload).
End Primitives.
End Crypto.

(** ** src/vault/vault.ts *)

Inductive CredentialType : Type :=
  | api_key | payment_token | oauth_token | secret | certificate.

(** A row of the table [credentials] (src/vault/schema.ts). *)
Record CredentialRecord : Type := {
  rec_id : string;
  rec_name : string;
  rec_type : CredentialType;
  encrypted_data : bytes;
  rec_iv : bytes;
  auth_tag : bytes;
  rec_metadata : list (string * string);
  rec_created_at : string;
  rec_updated_at : string;
}.

Record Credential : Type := {
  cred_id : string;
  cred_name : string;
  cred_type : CredentialType;
  cred_value : string;
  cred_metadata : list (string * string);
  cred_created_at : string;
  cred_updated_at : string;
}.

Record CredentialSummary : Type := {
  sum_id : string;
  sum_name : string;
  sum_type : CredentialType;
  sum_metadata : list (string * string);
  sum_created_at : string;
  sum_updated_at : string;
}.

(** What a call can throw: an [Error] made by the code, with its message, an
    error raised inside better-sqlite3 or node:crypto, or a [RangeError] of
    the runtime. *)
Inductive exn : Type :=
  | Error (message : string)
  | SqliteError
  | CryptoError
  | RangeError (message : string).

Inductive completion (T : Type) : Type :=
  | Returns (v : T)
  | Throws (e : exn).
Arguments Returns {T} v.
Arguments Throws {T} e.

Module Vault.
Section Vault.
Context `{NodeCrypto}.

(** A vault: its database and the field [key : Buffer | null].  A Buffer is
    an object on the JavaScript heap; [key] holds a reference to it (its
    index in [buffers]), and [buffers] gives the bytes each Buffer made by
    this vault holds now. *)
Record t : Type := {
  wallet_meta : list (string * string);
  credentials : list CredentialRecord;
  db_open : bool;
  key : option nat;
  buffers : list bytes;
}.

(** [new Vault(dbPath)], for the tables found at [dbPath]. *)
Definition new (meta : list (string * string)) (rows : list CredentialRecord) : t :=
  {| wallet_meta := meta; credentials := rows; db_open := true;
     key := None; buffers := [] |}.

(** [this.key = await deriveKey(passphrase, salt)]: the key goes into a
    fresh Buffer. *)
Definition set_key (k : bytes) (self : t) : t :=
  {| wallet_meta := wallet_meta self; credentials := credentials self;
     db_open := db_open self;
     key := Some (length (buffers self));
     buffers := (buffers self ++ [k])%list |}.

Definition set_meta (meta : list (string * string)) (self : t) : t :=
  {| wallet_meta := meta; credentials := credentials self;
     db_open := db_open self; key := key self; buffers := buffers self |}.

Definition set_credentials (rows : list CredentialRecord) (self : t) : t :=
  {| wallet_meta := wallet_meta self; credentials := rows;
     db_open := db_open self; key := key self; buffers := buffers self |}.

(** [initialize]; [salt] is the value of [generateSalt()]. *)
Definition initialize (passphrase : string) (salt : bytes) (self : t)
  : t * completion unit :=
  if negb (db_open self) then (self, Throws SqliteError) else
  match Map_get "salt" (wallet_meta self) with
  | Some _ =>
      (self, Throws (Error "Vault is already initialized. Use unlock() instead."))
  | None =>
      let self := set_key (Crypto.deriveKey passphrase salt) self in
      let meta :=
        Map_set "version" "1"
          (Map_set "salt" (base64_encode salt) (wallet_meta self)) in
      (set_meta meta self, Returns tt)
  end.

Definition unlock (passphrase : string) (self : t) : t * completion unit :=
  if negb (db_open self) then (self, Throws SqliteError) else
  match Map_get "salt" (wallet_meta self) with
  | None =>
      (self, Throws (Error "Vault is not initialized. Use initialize() first."))
  | Some value =>
      let salt := base64_decode value in
      (set_key (Crypto.deriveKey passphrase salt) self, Returns tt)
  end.

(** [ensureUnlocked]: the bytes of the Buffer [this.key] refers to. *)
Definition ensureUnlocked (self : t) : completion bytes :=
  match key self with
  | None => Throws (Error "Vault is locked. Call initialize() or unlock() first.")
  | Some ref => Returns (default [] (buffers self !! ref))
  end.

(** [addCredential]; [uuid], [now] and [nonce] are the values of
    [randomUUID()], [new Date().toISOString()] and [randomBytes(12)].
    The INSERT fails on a name or an id that is already there. *)
Definition addCredential (name : string) (type : CredentialType) (value : string)
    (metadata : list (string * string)) (uuid now : string) (nonce : bytes)
    (self : t) : t * completion string :=
  match ensureUnlocked self with
  | Throws e => (self, Throws e)
  | Returns k =>
      let payload := Crypto.encrypt value k nonce in
      if negb (db_open self) then (self, Throws SqliteError) else
      if existsb (fun r => String.eqb (rec_name r) name || String.eqb (rec_id r) uuid)
           (credentials self)
      then (self, Throws SqliteError)
      else
        let row :=
          {| rec_id := uuid; rec_name := name; rec_type := type;
             encrypted_data := ciphertext payload; rec_iv := iv payload;
             auth_tag := authTag payload; rec_metadata := metadata;
             rec_created_at := now; rec_updated_at := now |} in
        (set_credentials (credentials self ++ [row])%list self, Returns uuid)
  end.

(** [getCredential]: [Returns None] is [null]. *)
Definition getCredential (name : string) (self : t) : completion (option Credential) :=
  match ensureUnlocked self with
  | Throws e => Throws e
  | Returns k =>
      if negb (db_open self) then Throws SqliteError else
      match find (fun r => String.eqb (rec_name r) name) (credentials self) with
      | None => Returns None
      | Some row =>
          let payload :=
            {| ciphertext := encrypted_data row; iv := rec_iv row;
               authTag := auth_tag row |} in
          match Crypto.decrypt payload k with
          | None => Throws CryptoError
          | Some value =>
              Returns (Some
                {| cred_id := rec_id row; cred_name := rec_name row;
                   cred_type := rec_type row; cred_value := value;
                   cred_metadata := rec_metadata row;
                   cred_created_at := rec_created_at row;
                   cred_updated_at := rec_updated_at row |})
          end
      end
  end.

Definition listCredentials (self : t) : completion (list CredentialSummary) :=
  match ensureUnlocked self with
  | Throws e => Throws e
  | Returns _ =>
      if negb (db_open self) then Throws SqliteError else
      Returns
        (map (fun row =>
                {| sum_id := rec_id row; sum_name := rec_name row;
                   sum_type := rec_type row; sum_metadata := rec_metadata row;
                   sum_created_at := rec_created_at row;
                   sum_updated_at := rec_updated_at row |})
             (credentials self))
  end.

Definition removeCredential (name : string) (self : t) : t * completion bool :=
  match ensureUnlocked self with
  | Throws e => (self, Throws e)
  | Returns _ =>
      if negb (db_open self) then (self, Throws SqliteError) else
      let kept :=
        List.filter (fun r => negb (String.eqb (rec_name r) name)) (credentials self) in
      (set_credentials kept self,
       Returns (Nat.ltb (length kept) (length (credentials self))))
  end.

(** [close]: [this.key = null; this.db.close()].  No Buffer is written to. *)
Definition close (self : t) : t :=
  {| wallet_meta := wallet_meta self; credentials := credentials self;
     db_open := false; key := None; buffers := buffers self |}.
End Vault.
End Vault.

(** ** src/tools/request-credential.ts *)

(** The object the tool serialises into its reply; [expires_at] is kept in
    milliseconds where the reply prints it as an ISO date. *)
Inductive Response (num : Type) : Type :=
  | granted (token_id credential_value : string) (expires_at : Z)
            (scope : list (string * json num))
  | approval_needed (reason : string) (policy : option string)
  | denied (reason : string)
  | error (reason : string).
Arguments granted {num} _ _ _ _.
Arguments approval_needed {num} _ _.
Arguments denied {num} _.
Arguments error {num} _.

(** The [status] field of the reply. *)
Definition status {num : Type} (r : Response num) : string :=
  match r with
  | granted _ _ _ _ => "granted"
  | approval_needed _ _ => "require_approval"
  | denied _ => "denied"
  | error _ => "error"
  end.

(** What one invocation reads from the clock and from [randomUUID()], in
    the order of the reads. *)
Record Readings : Type := {
  at_request : string;     (* new Date().toISOString() of credential_requested *)
  at_spending : string;    (* new Date().toISOString() in getMonthlySpending *)
  at_issue : Z;            (* Date.now() in issue *)
  uuid : string;           (* randomUUID() in issue *)
  at_outcome : string;     (* new Date().toISOString() of the outcome event *)
}.

Module RequestCredential.
Section Tool.
Context {num : Type} `{JsNumber num} `{CelRuntime num} `{JsonRuntime num}
        `{NodeCrypto}.

Record Deps : Type := {
  vault : Vault.t;
  policyLoader : list (string * Policy num);
  auditLogger : list AuditRow;
  tokenStore : gmap string (ScopedToken num);
}.

Definition entry (timestamp : string) (event : AuditEvent)
    (request : CredentialRequest num) : AuditEntry num :=
  {| aud_timestamp := timestamp; aud_event := event;
     aud_policy := None;
     aud_agent_id := Some (req_agent_id request);
     aud_skill_id := req_skill_id request;
     aud_purpose := Some (req_purpose request);
     aud_token_id := None;
     aud_credential_name := Some (req_credential_name request);
     aud_scope := None; aud_context := None; aud_outcome := None;
     aud_approval := None; aud_details := None |}.

(** The entry of an outcome event: [entry] with [policy], [outcome] and, as
    the event has them, [details], [token_id] and [scope]. *)
Definition outcome_entry (timestamp : string) (event : AuditEvent)
    (request : CredentialRequest num) (result : PolicyEvalResult num)
    (outcome : string) (details token : option string)
    (scope : option (list (string * json num))) : AuditEntry num :=
  {| aud_timestamp := timestamp; aud_event := event;
     aud_policy := res_policy_name result;
     aud_agent_id := Some (req_agent_id request);
     aud_skill_id := req_skill_id request;
     aud_purpose := Some (req_purpose request);
     aud_token_id := token;
     aud_credential_name := Some (req_credential_name request);
     aud_scope := scope; aud_context := None; aud_outcome := Some outcome;
     aud_approval := None; aud_details := details |}.

Definition with_audit (rows : list AuditRow) (deps : Deps) : Deps :=
  {| vault := vault deps; policyLoader := policyLoader deps;
     auditLogger := rows; tokenStore := tokenStore deps |}.

Definition with_tokens (tokens : gmap string (ScopedToken num)) (deps : Deps) : Deps :=
  {| vault := vault deps; policyLoader := policyLoader deps;
     auditLogger := auditLogger deps; tokenStore := tokens |}.

(** The callback of [checkout_request_credential]. *)
Definition request_credential (params : CredentialRequest num) (env : Readings)
    (deps : Deps) : Deps * completion (Response num) :=
  let request :=
    {| req_credential_name := req_credential_name params;
       req_agent_id := req_agent_id params;
       req_skill_id := req_skill_id params;
       req_purpose := req_purpose params;
       req_amount := req_amount params;
       req_currency := req_currency params;
       req_action := req_action params;
       req_context := None |} in
  (* Log the request *)
  let deps :=
    with_audit
      (fst (AuditLogger.log (entry (at_request env) credential_requested request)
              (at_request env) (auditLogger deps))) deps in
  (* Find matching policies *)
  let policies :=
    PolicyLoader.listPoliciesForAgent (policyLoader deps)
      (req_agent_id request) (req_skill_id request) in
  (* Get monthly spending for budget checks *)
  let monthlySpending :=
    AuditLogger.getMonthlySpending (auditLogger deps)
      (req_credential_name request) None (at_spending env) in
  (* Evaluate *)
  let result := PolicyEngine.evaluateFirst policies request (Some monthlySpending) in
  match decision result with
  | deny =>
      let deps :=
        with_audit
          (fst (AuditLogger.log
                  (outcome_entry (at_outcome env) credential_denied request result
                     "denied" (Some (reason result)) None None)
                  (at_outcome env) (auditLogger deps))) deps in
      (deps, Returns (denied (reason result)))
  | require_approval =>
      let deps :=
        with_audit
          (fst (AuditLogger.log
                  (outcome_entry (at_outcome env) approval_required request result
                     "pending_approval" (Some (reason result)) None None)
                  (at_outcome env) (auditLogger deps))) deps in
      (deps, Returns (approval_needed (reason result) (res_policy_name result)))
  | allow =>
      (* Allowed: fetch credential and issue token *)
      match Vault.getCredential (req_credential_name request) (vault deps) with
      | Throws e => (deps, Throws e)
      | Returns None =>
          (deps,
           Returns (error ("Credential '" +:+ req_credential_name request +:+
                           "' not found in vault.")))
      | Returns (Some credential) =>
          (* Find the matching policy to get TTL *)
          let policy_name := default EmptyString (res_policy_name result) in
          let matchingPolicy :=
            PolicyLoader.getPolicy (policyLoader deps) policy_name in
          let issued :=
            TokenStore.issue
              {| ip_credential_name := cred_name credential;
                 ip_credential_value := cred_value credential;
                 ip_policy_name := policy_name;
                 ip_agent_id := req_agent_id request;
                 ip_skill_id := req_skill_id request;
                 ip_scope := res_scope result;
                 ip_ttl := matchingPolicy ≫= pol_ttl |}
              (at_issue env) (uuid env) (tokenStore deps) in
          let token := snd issued in
          let deps := with_tokens (fst issued) deps in
          let deps :=
            with_audit
              (fst (AuditLogger.log
                      (outcome_entry (at_outcome env) credential_granted request
                         result "granted" None (Some (token_id token))
                         (Some (tok_scope token)))
                      (at_outcome env) (auditLogger deps))) deps in
          (* new Date(token.expires_at).toISOString() *)
          if Date_in_range (expires_at token) then
            (deps,
             Returns (granted (token_id token) (credential_value token)
                        (expires_at token) (tok_scope token)))
          else (deps, Throws (RangeError "Invalid time value"))
      end
  end.
End Tool.
End RequestCredential.

(** * The specification, stated on the embedding *)

(** ** The checks of [evaluate], in the words of the specification *)

Inductive Check : Type :=
  | ExplicitDeny
  | GrantAgent
  | GrantSkill
  | Actions
  | PerTransaction
  | Monthly
  | ApprovalThreshold
  | Condition.

(** The place of a check in the order the specification gives. *)
Definition rank (c : Check) : nat :=
  match c with
  | ExplicitDeny => 1
  | GrantAgent => 2
  | GrantSkill => 3
  | Actions => 4
  | PerTransaction => 5
  | Monthly => 6
  | ApprovalThreshold => 7
  | Condition => 8
  end.

(** The checks whose reason quotes the name of the policy. *)
Definition quotes_policy (c : Check) : bool :=
  match c with
  | ExplicitDeny | GrantAgent | GrantSkill | Actions => true
  | _ => false
  end.

(** What a failing check decides: the approval threshold asks for approval,
    every other check denies. *)
Definition verdict (c : Check) : PolicyDecision :=
  match c with ApprovalThreshold => require_approval | _ => deny end.

Module EngineSpec.
Section Checks.
Context {num : Type} `{JsNumber num} `{CelRuntime num}.

(** [names_scope g xs]: the selector [g] is set, and [xs] are the ids it
    names.  A selector counts as set when JavaScript takes it for true: a
    string that is not empty names itself, an array names what it holds
    (were it nothing), and an empty string is as good as no selector. *)
Definition names_scope (g : option str_or_list) (xs : list string) : Prop :=
  match g with
  | Some (One s) => s <> EmptyString /\ xs = [s]
  | Some (Many l) => xs = l
  | None => False
  end.

(** [fails c policy request spending]: check [c] rejects the request.  A
    field counts as set or given when JavaScript takes it for true: an
    empty string is not. *)
Definition fails (c : Check) (policy : Policy num) (request : CredentialRequest num)
    (monthlySpending : option num) : Prop :=
  match c with
  | ExplicitDeny =>
      exists l, pol_deny policy = Some l /\ In (req_agent_id request) l
  | GrantAgent =>
      exists agents,
        names_scope (gt_agent_id (pol_grant_to policy)) agents
        /\ ~ In "*" agents /\ ~ In (req_agent_id request) agents
  | GrantSkill =>
      exists skill skills,
        req_skill_id request = Some skill /\ skill <> EmptyString
        /\ names_scope (gt_skill_id (pol_grant_to policy)) skills
        /\ ~ In "*" skills /\ ~ In skill skills
  | Actions =>
      exists actions action,
        pol_actions policy = Some actions /\ req_action request = Some action
        /\ action <> EmptyString /\ ~ In action actions
  | PerTransaction =>
      exists budget limit amount,
        pol_budget policy = Some budget /\ max_per_transaction budget = Some limit
        /\ req_amount request = Some amount /\ num_gt amount limit = true
  | Monthly =>
      exists budget limit amount,
        pol_budget policy = Some budget /\ max_per_month budget = Some limit
        /\ req_amount request = Some amount
        /\ num_gt (num_add (default num_zero monthlySpending) amount) limit = true
  | ApprovalThreshold =>
      exists threshold amount,
        pol_approval_threshold policy = Some threshold
        /\ req_amount request = Some amount /\ num_gt amount threshold = true
  | Condition =>
      exists condition,
        pol_condition policy = Some condition /\ condition <> EmptyString
        /\ celEvaluate condition (PolicyEngine.celContext request) <> CelTrue
  end.

(** [String(n)] of a number that is there. *)
Definition shown (n : option num) : string :=
  match n with Some x => num_to_string x | None => EmptyString end.

(** The reason each check gives when it fails (engine.ts, lines 25, 37, 51,
    62, 73, 85, 96, 119 and 126). *)
Definition reason_of (c : Check) (policy : Policy num)
    (request : CredentialRequest num) (monthlySpending : option num) : string :=
  match c with
  | ExplicitDeny =>
      "Agent '" +:+ req_agent_id request +:+
      "' is explicitly denied by policy '" +:+ pol_name policy +:+ "'."
  | GrantAgent =>
      "Agent '" +:+ req_agent_id request +:+
      "' is not granted access by policy '" +:+ pol_name policy +:+ "'."
  | GrantSkill =>
      "Skill '" +:+ default EmptyString (req_skill_id request) +:+
      "' is not granted access by policy '" +:+ pol_name policy +:+ "'."
  | Actions =>
      "Action '" +:+ default EmptyString (req_action request) +:+
      "' is not allowed by policy '" +:+ pol_name policy +:+ "'."
  | PerTransaction =>
      "Amount $" +:+ shown (req_amount request) +:+
      " exceeds max per transaction $" +:+
      shown (pol_budget policy ≫= max_per_transaction) +:+ "."
  | Monthly =>
      "Amount $" +:+ shown (req_amount request) +:+
      " would exceed monthly budget. Spent: $" +:+
      shown (Some (default num_zero monthlySpending)) +:+
      ", limit: $" +:+ shown (pol_budget policy ≫= max_per_month) +:+ "."
  | ApprovalThreshold =>
      "Amount $" +:+ shown (req_amount request) +:+
      " exceeds approval threshold $" +:+
      shown (pol_approval_threshold policy) +:+ "."
  | Condition =>
      match pol_condition policy with
      | Some condition =>
          match celEvaluate condition (PolicyEngine.celContext request) with
          | CelThrows message => "CEL evaluation error: " +:+ message
          | CelOther value =>
              "CEL condition '" +:+ condition +:+ "' evaluated to " +:+ value +:+ "."
          | CelTrue => EmptyString
          end
      | None => EmptyString
      end
  end.

(** [c] is the first check that fails. *)
Definition first_failing (c : Check) (policy : Policy num)
    (request : CredentialRequest num) (monthlySpending : option num) : Prop :=
  fails c policy request monthlySpending
  /\ forall c', (rank c' < rank c)%nat -> ~ fails c' policy request monthlySpending.
End Checks.
End EngineSpec.

(** ** Monthly spending, in the words of the specification *)

(** A month prefix such as [2025-01]: not empty, digits and hyphens only. *)
Definition month_char (c : ascii) : bool :=
  let n := nat_of_ascii c in
  (Nat.leb 48 n && Nat.leb n 57)%bool || Nat.eqb n 45.

Fixpoint month_chars (m : string) : bool :=
  match m with
  | EmptyString => true
  | String c m' => month_char c && month_chars m'
  end.

Definition month_prefix (m : string) : Prop :=
  m <> EmptyString /\ month_chars m = true.

Module AuditSpec.
Section Spending.
Context {num : Type} `{JsNumber num} `{JsonRuntime num}.

(** The entries that count: event [credential_used], credential [c], a
    timestamp that begins with [m]. *)
Definition counted (c m : string) (row : AuditRow) : bool :=
  AuditEvent_eqb (row_event row) credential_used
  && bool_decide (row_credential_name row = Some c)
  && String.prefix m (row_timestamp row).

(** The property [name] of a JSON object, if it has one. *)
Definition property (name : string) (fields : list (string * json num))
  : option (json num) :=
  snd <$> List.find (fun field => String.eqb (fst field) name) fields.

(** The numeric [amount] of an entry: its details are there, are JSON, the
    JSON is an object, and the object's [amount] is a number. *)
Definition amount_field (row : AuditRow) : option num :=
  match row_details row with
  | Some details =>
      match JSON_parse details with
      | Some (JObj fields) =>
          match property "amount" fields with
          | Some (JNum n) => Some n
          | _ => None
          end
      | _ => None
      end
  | None => None
  end.

(** The sum, taken in the order of the entries. *)
Definition monthly_spending (log : list AuditRow) (c m : string) : num :=
  fold_left num_add (omap amount_field (List.filter (counted c m) log)) num_zero.
End Spending.
End AuditSpec.

(** ** The later of the policies of a name *)

Definition last_named {num : Type} (name : string) (policies : list (Policy num))
  : option (Policy num) :=
  last (List.filter (fun p => String.eqb (pol_name p) name) policies).

(** Every entry of the loader's map sits under the name of its policy. *)
Definition keyed {num : Type} (m : list (string * Policy num)) : Prop :=
  List.Forall (fun kv => fst kv = pol_name (snd kv)) m.

(** The keys [PolicyFileSchema] and [PolicySchema] name. *)
Definition file_keys : list string := ["version"; "policies"].
Definition policy_keys : list string :=
  ["name"; "description"; "credential"; "grant_to"; "deny"; "actions"; "budget";
   "approval_threshold"; "condition"; "scope"; "ttl"].

(** * A runtime to run the examples on *)

(** Numbers that are integers: exact, and printed in decimal as JavaScript
    prints an integer. *)
#[export] Instance Z_number : JsNumber Z :=
  {| num_zero := 0; num_add := Z.add; num_gt := Z.gtb;
     num_as_int := Some; num_to_string := pretty |}.

(** No policy of the examples has a condition. *)
#[export] Instance cel_unused : CelRuntime Z :=
  {| celEvaluate := fun _ _ => CelThrows "no evaluator" |}.

Definition quote (s : string) : string :=
  String "034"%char (s +:+ String "034"%char EmptyString).

(** The JSON text of [{amount: n}], an integer [n]. *)
Definition amount_text (n : Z) : string :=
  "{" +:+ quote "amount" +:+ ":" +:+ pretty n +:+ "}".

(** [JSON.parse] on the texts the examples hold: [{amount: 25}],
    [{amount: 15}] and [null]; anything else counts as malformed. *)
Definition parse_example (text : string) : option (json Z) :=
  if String.eqb text (amount_text 25) then Some (JObj [("amount", JNum 25)])
  else if String.eqb text (amount_text 15) then Some (JObj [("amount", JNum 15)])
  else if String.eqb text "null" then Some JNull
  else None.

#[export] Instance json_examples : JsonRuntime Z :=
  {| JSON_parse := parse_example;
     JSON_stringify := fun _ => "{}";
     JSON_parse_empty := eq_refl |}.

(** A stand-in for node:crypto with the shape of the real one and nothing
    of its strength: the sealed text is the plain text, the tag is the key. *)
#[export] Instance toy_crypto : NodeCrypto :=
  {| argon2id := fun passphrase salt => (list_byte_of_string passphrase ++ salt)%list;
     hkdf_sha256 := fun ikm salt info len => take len (ikm ++ salt ++ info)%list;
     aes_256_gcm_seal := fun key nonce plain => (plain, key);
     aes_256_gcm_open := fun key nonce tag sealed =>
       if String.eqb (string_of_list_byte tag) (string_of_list_byte key)
       then Some sealed else None;
     base64_encode := string_of_list_byte;
     base64_decode := list_byte_of_string |}.

(** ** The set-up of the end-to-end scenarios (tests/integration.test.ts) *)

Definition policy_document : json Z :=
  JObj [ ("version", JStr "1");
         ("policies",
          JArr [ JObj [ ("name", JStr "test-stripe");
                        ("credential", JStr "stripe-key");
                        ("grant_to", JObj [("agent_id", JArr [JStr "test-agent"])]);
                        ("actions", JArr [JStr "charge"]);
                        ("budget", JObj [ ("max_per_transaction", JNum 100);
                                          ("max_per_month", JNum 500) ]);
                        ("approval_threshold", JNum 75);
                        ("ttl", JNum 60) ] ]) ].

Definition test_stripe : Policy Z :=
  {| pol_name := "test-stripe"; pol_description := None;
     pol_credential := "stripe-key";
     pol_grant_to := {| gt_agent_id := Some (Many ["test-agent"]); gt_skill_id := None |};
     pol_deny := None; pol_actions := Some ["charge"];
     pol_budget := Some {| max_per_transaction := Some 100;
                           max_per_month := Some 500; currency := None |};
     pol_approval_threshold := Some 75; pol_condition := None;
     pol_scope := None; pol_ttl := Some 60 |}.

Definition example_salt : bytes := repeat Byte.x2a 32.

(** An initialised vault that holds nothing yet. *)
Definition empty_vault : Vault.t :=
  fst (Vault.initialize "integration-test-pass" example_salt (Vault.new [] [])).

(** The vault of the scenarios: [stripe-key] added. *)
Definition scenario_vault : Vault.t :=
  fst (Vault.addCredential "stripe-key" api_key "test-credential-value-abc123" []
         "a3bb189e-8bf9-3888-9912-ace4e6543002" "2025-01-15T09:00:00.000Z"
         (repeat Byte.x07 12) empty_vault).

Definition scenario_deps (v : Vault.t) : RequestCredential.Deps :=
  {| RequestCredential.vault := v;
     RequestCredential.policyLoader :=
       default [] (PolicyLoader.loadFromObject policy_document);
     RequestCredential.auditLogger := [];
     RequestCredential.tokenStore := ∅ |}.

Definition scenario_readings : Readings :=
  {| at_request := "2025-01-15T10:00:00.000Z";
     at_spending := "2025-01-15T10:00:00.001Z";
     at_issue := 1736935200002;
     uuid := "0b7e3a52-5d0c-4c59-9a55-3f1c8f0a2d11";
     at_outcome := "2025-01-15T10:00:00.003Z" |}.

Definition scenario_request (agent : string) (amount : option Z) (action : option string)
    (purpose : string) : CredentialRequest Z :=
  {| req_credential_name := "stripe-key"; req_agent_id := agent;
     req_skill_id := None; req_purpose := purpose; req_amount := amount;
     req_currency := None; req_action := action; req_context := None |}.

(** Scenario 2: the request of [unauthorized-agent]. *)
Definition unauthorized_request : CredentialRequest Z :=
  scenario_request "unauthorized-agent" None None "steal money".

(** Scenario 1: the request of [test-agent] for 25. *)
Definition happy_request : CredentialRequest Z :=
  scenario_request "test-agent" (Some 25) (Some "charge") "charge customer".

(** Scenario 4: the request of [test-agent] for 150. *)
Definition over_cap_request : CredentialRequest Z :=
  scenario_request "test-agent" (Some 150) (Some "charge") "too expensive".

(** ** Documents for the loader *)

(** [policy_document] with a top-level key and a per-policy key that the
    schemas do not name; the latter is a misspelt [condition]. *)
Definition typo_document : json Z :=
  JObj [ ("version", JStr "1");
         ("owner", JStr "ops");
         ("policies",
          JArr [ JObj [ ("name", JStr "test-stripe");
                        ("credential", JStr "stripe-key");
                        ("grant_to", JObj [("agent_id", JArr [JStr "test-agent"])]);
                        ("conditon", JStr "amount < 10");
                        ("actions", JArr [JStr "charge"]);
                        ("budget", JObj [ ("max_per_transaction", JNum 100);
                                          ("max_per_month", JNum 500) ]);
                        ("approval_threshold", JNum 75);
                        ("ttl", JNum 60) ] ]) ].

(** A policy of the least the schema asks for. *)
Definition plain_policy (name credential agent : string) : Policy Z :=
  {| pol_name := name; pol_description := None; pol_credential := credential;
     pol_grant_to := {| gt_agent_id := Some (One agent); gt_skill_id := None |};
     pol_deny := None; pol_actions := None; pol_budget := None;
     pol_approval_threshold := None; pol_condition := None; pol_scope := None;
     pol_ttl := None |}.

Definition plain_policy_json (name credential agent : string) : json Z :=
  JObj [ ("name", JStr name); ("credential", JStr credential);
         ("grant_to", JObj [("agent_id", JStr agent)]) ].

(** Three policies, the first and the last of the same name. *)
Definition duplicate_document : json Z :=
  JObj [ ("version", JStr "1");
         ("policies",
          JArr [ plain_policy_json "deploy" "github-token" "agent-1";
                 plain_policy_json "billing" "stripe-key" "agent-2";
                 plain_policy_json "deploy" "npm-token" "agent-3" ]) ].

Definition duplicate_file : PolicyFile Z :=
  {| pf_version := "1";
     pf_policies := [ plain_policy "deploy" "github-token" "agent-1";
                      plain_policy "billing" "stripe-key" "agent-2";
                      plain_policy "deploy" "npm-token" "agent-3" ] |}.

(** ** A token and an audit log to run the examples on *)

Definition example_params : IssueParams Z :=
  {| ip_credential_name := "stripe-key";
     ip_credential_value := "test-credential-value-abc123";
     ip_policy_name := "test-stripe"; ip_agent_id := "test-agent";
     ip_skill_id := None; ip_scope := None; ip_ttl := Some 60 |}.

Definition used_row (id : Z) (timestamp credential : string) (details : option string)
  : AuditRow :=
  {| row_id := id; row_timestamp := timestamp; row_event := credential_used;
     row_policy := Some "test-stripe"; row_agent_id := Some "test-agent";
     row_skill_id := None; row_purpose := None; row_token_id := None;
     row_credential_name := Some credential; row_scope := None;
     row_context := None; row_outcome := Some "used"; row_approval := None;
     row_details := details |}.

(** Two uses of [stripe-key] in January 2025 with an amount, one whose
    details are no JSON, one whose details are [null], one in February and
    one of another credential. *)
Definition example_log : list AuditRow :=
  [ used_row 1 "2025-01-15T10:00:00.000Z" "stripe-key" (Some (amount_text 25));
    used_row 2 "2025-01-16T10:00:00.000Z" "stripe-key" (Some "paid by card");
    used_row 3 "2025-01-20T10:00:00.000Z" "stripe-key" (Some (amount_text 15));
    used_row 4 "2025-01-21T10:00:00.000Z" "stripe-key" (Some "null");
    used_row 5 "2025-02-01T10:00:00.000Z" "stripe-key" (Some (amount_text 25));
    used_row 6 "2025-01-22T10:00:00.000Z" "github-token" (Some (amount_text 25)) ].

(** * The rest of the audit logger and the usage report *)

(** ** src/audit/logger.ts: [query] *)

(** The argument of [query]; [limit] is taken to be an integer. *)
Record AuditQuery : Type := {
  q_event : option AuditEvent;
  q_policy : option string;
  q_agent_id : option string;
  q_since : option string;
  q_limit : option Z;
}.

(** An entry as [query] returns it: the columns [scope] and [context]
    parsed back from their JSON text. *)
Record QueriedEntry (num : Type) : Type := {
  out_id : Z;
  out_timestamp : string;
  out_event : AuditEvent;
  out_policy : option string;
  out_agent_id : option string;
  out_skill_id : option string;
  out_purpose : option string;
  out_token_id : option string;
  out_credential_name : option string;
  out_scope : option (json num);
  out_context : option (json num);
  out_outcome : option string;
  out_approval : option string;
  out_details : option string;
}.
Arguments out_id {num} _.
Arguments out_timestamp {num} _.
Arguments out_event {num} _.
Arguments out_policy {num} _.
Arguments out_agent_id {num} _.
Arguments out_skill_id {num} _.
Arguments out_purpose {num} _.
Arguments out_token_id {num} _.
Arguments out_credential_name {num} _.
Arguments out_scope {num} _.
Arguments out_context {num} _.
Arguments out_outcome {num} _.
Arguments out_approval {num} _.
Arguments out_details {num} _.

(** [column = ?] for a column that may be NULL, under [if (filters.x)]: an
    absent or empty filter selects every row, a NULL column matches none. *)
Definition column_is (wanted : option string) (column : option string) : bool :=
  match wanted with
  | Some w =>
      if str_truthy w then
        match column with Some c => String.eqb c w | None => false end
      else true
  | None => true
  end.

Module AuditQuerying.
Section Query.
Context {num : Type} `{JsonRuntime num}.

(** The WHERE clause [query] builds from its filters. *)
Definition matches (filters : AuditQuery) (row : AuditRow) : bool :=
  match q_event filters with
  | Some e => AuditEvent_eqb (row_event row) e
  | None => true
  end
  && column_is (q_policy filters) (row_policy row)
  && column_is (q_agent_id filters) (row_agent_id row)
  && match q_since filters with
     | Some since =>
         if str_truthy since then String.leb since (row_timestamp row) else true
     | None => true
     end.

(** [LIMIT n], which [query] adds when [filters.limit] is truthy; SQLite
    takes a negative limit for no limit. *)
Definition limited (limit : option Z) (rows : list AuditRow) : list AuditRow :=
  match limit with
  | Some n => if (n <=? 0)%Z then rows else take (Z.to_nat n) rows
  | None => rows
  end.

(** [SELECT * FROM audit_log WHERE ... ORDER BY id DESC LIMIT ...]: the
    table is kept oldest row first, so the newest come first in reverse. *)
Definition select (filters : AuditQuery) (self : list AuditRow) : list AuditRow :=
  limited (q_limit filters) (rev (List.filter (matches filters) self)).

(** [column ? JSON.parse(column) : undefined]; the outer [None] is a throw. *)
Definition parse_column (column : option string) : option (option (json num)) :=
  match column with
  | Some text =>
      if str_truthy text then parsed ← JSON_parse text; Some (Some parsed)
      else Some None
  | None => Some None
  end.

Definition to_entry (row : AuditRow) : option (QueriedEntry num) :=
  scope ← parse_column (row_scope row);
  context ← parse_column (row_context row);
  Some {| out_id := row_id row; out_timestamp := row_timestamp row;
          out_event := row_event row; out_policy := row_policy row;
          out_agent_id := row_agent_id row; out_skill_id := row_skill_id row;
          out_purpose := row_purpose row; out_token_id := row_token_id row;
          out_credential_name := row_credential_name row;
          out_scope := scope; out_context := context;
          out_outcome := row_outcome row; out_approval := row_approval row;
          out_details := row_details row |}.

(** [query(filters)]: [None] when a [JSON.parse] throws. *)
Definition query (filters : AuditQuery) (self : list AuditRow)
  : option (list (QueriedEntry num)) :=
  mapM to_entry (select filters self).
End Query.
End AuditQuerying.

(** The table as [log] builds it from an empty database: ids 1, 2, 3, ... *)
Definition well_numbered (self : list AuditRow) : Prop :=
  map row_id self = map Z.of_nat (seq 1 (length self)).

(** ** src/tools/report-usage.ts *)

Record UsageParams (num : Type) : Type := {
  up_token_id : string;
  up_amount : option num;
  up_currency : option string;
  up_outcome : option string;
  up_details : option string;
}.
Arguments up_token_id {num} _.
Arguments up_amount {num} _.
Arguments up_currency {num} _.
Arguments up_outcome {num} _.
Arguments up_details {num} _.

(** The object the tool serialises into its reply. *)
Inductive UsageReply : Type :=
  | recorded (token_id : string)
  | usage_error (reason : string).

Module ReportUsage.
Section Tool.
Context {num : Type} `{JsNumber num} `{JsonRuntime num}.
Import RequestCredential.

(** The object [{amount, currency: currency ?? "USD", details}];
    [JSON.stringify] leaves out a property that is [undefined]. *)
Definition usage_details (amount : num) (currency details : option string)
  : json num :=
  JObj ([ ("amount", JNum amount); ("currency", JStr (default "USD" currency)) ]
        ++ match details with
           | Some d => [("details", JStr d)]
           | None => []
           end)%list.

(** The callback of [checkout_report_usage]; [now_ms] is the reading of
    [Date.now()] in [get], [now] that of [new Date().toISOString()] for
    the entry. *)
Definition report_usage (params : UsageParams num) (now_ms : Z) (now : string)
    (deps : Deps) : Deps * UsageReply :=
  let looked := TokenStore.get (up_token_id params) now_ms (tokenStore deps) in
  let deps := with_tokens (fst looked) deps in
  match snd looked with
  | None => (deps, usage_error "Token not found or expired.")
  | Some token =>
      let deps :=
        with_tokens (fst (TokenStore.markUsed (up_token_id params) (tokenStore deps)))
          deps in
      let entry :=
        {| aud_timestamp := now; aud_event := credential_used;
           aud_policy := Some (tok_policy_name token);
           aud_agent_id := Some (tok_agent_id token);
           aud_skill_id := tok_skill_id token;
           aud_purpose := None;
           aud_token_id := Some (token_id token);
           aud_credential_name := Some (tok_credential_name token);
           aud_scope := Some (tok_scope token);
           aud_context := None;
           aud_outcome := Some (default "used" (up_outcome params));
           aud_approval := None;
           aud_details :=
             match up_amount params with
             | Some amount =>
                 Some (JSON_stringify
                         (usage_details amount (up_currency params)
                            (up_details params)))
             | None => up_details params
             end |} in
      (with_audit (fst (AuditLogger.log entry now (auditLogger deps))) deps,
       recorded (up_token_id params))
  end.
End Tool.
End ReportUsage.

(** ** The crypto laws the vault relies on *)

(** What AES-256-GCM and base64 give: opening what was sealed with the same
    key and nonce returns the plain text, and decoding an encoding returns
    the bytes. *)
Definition crypto_round_trips `{NodeCrypto} : Prop :=
  (forall key nonce plain,
      aes_256_gcm_open key nonce (snd (aes_256_gcm_seal key nonce plain))
        (fst (aes_256_gcm_seal key nonce plain)) = Some plain)
  /\ (forall salt, base64_decode (base64_encode salt) = salt).

(** A vault that can serve requests: unlocked, and its database open. *)
Definition serving `{NodeCrypto} (v : Vault.t) : Prop :=
  Vault.db_open v = true /\ exists ref, Vault.key v = Some ref.

(** The bytes of the key a vault holds, if it holds one. *)
Definition key_bytes `{NodeCrypto} (v : Vault.t) : option bytes :=
  ref ← Vault.key v; Vault.buffers v !! ref.

(** ** Examples for the usage report *)

Definition example_token : ScopedToken Z :=
  snd (TokenStore.issue example_params 1000 "t-1" ∅).

Definition usage_deps : RequestCredential.Deps :=
  {| RequestCredential.vault := scenario_vault;
     RequestCredential.policyLoader :=
       default [] (PolicyLoader.loadFromObject policy_document);
     RequestCredential.auditLogger := example_log;
     RequestCredential.tokenStore := fst (TokenStore.issue example_params 1000 "t-1" ∅) |}.

(** What the schema makes sure of in a policy it accepts. *)
Definition validated_policy {num : Type} `{JsNumber num} (p : Policy num) : Prop :=
  pol_name p <> EmptyString
  /\ pol_credential p <> EmptyString
  /\ (forall n, pol_approval_threshold p = Some n -> num_gt n num_zero = true)
  /\ (forall b n, pol_budget p = Some b ->
                  max_per_transaction b = Some n \/ max_per_month b = Some n ->
                  num_gt n num_zero = true)
  /\ (forall t, pol_ttl p = Some t ->
                exists n, num_as_int n = Some t /\ num_gt n num_zero = true).

(** The fields [evaluate] puts into the CEL context before the spread. *)
Definition builtin_fields {num : Type} `{JsNumber num} (request : CredentialRequest num)
  : list (string * json num) :=
  [ ("agent_id", JStr (req_agent_id request));
    ("skill_id", JStr (default EmptyString (req_skill_id request)));
    ("purpose", JStr (req_purpose request));
    ("amount", JNum (default num_zero (req_amount request)));
    ("currency", JStr (default EmptyString (req_currency request)));
    ("action", JStr (default EmptyString (req_action request))) ].

(** The request [request_credential] builds from its parameters: the tool
    takes no [context]. *)
Definition without_context {num : Type} (params : CredentialRequest num)
  : CredentialRequest num :=
  {| req_credential_name := req_credential_name params;
     req_agent_id := req_agent_id params;
     req_skill_id := req_skill_id params;
     req_purpose := req_purpose params;
     req_amount := req_amount params;
     req_currency := req_currency params;
     req_action := req_action params;
     req_context := None |}.

(** ** More examples *)

(** A runtime that writes the details of a report of 25 and reads them
    back. *)
Definition usage_text : string :=
  "{" +:+ quote "amount" +:+ ":25," +:+ quote "currency" +:+ ":" +:+ quote "USD" +:+ "}".

Definition json_usage : JsonRuntime Z :=
  {| JSON_parse := fun text =>
       if String.eqb text usage_text
       then Some (JObj [("amount", JNum 25); ("currency", JStr "USD")])
       else None;
     JSON_stringify := fun _ => usage_text;
     JSON_parse_empty := eq_refl |}.

Definition usage_report : UsageParams Z :=
  {| up_token_id := "t-1"; up_amount := Some 25; up_currency := None;
     up_outcome := Some "success"; up_details := None |}.

Definition requested_entry : AuditEntry Z :=
  RequestCredential.entry "2025-01-15T10:00:00.000Z" credential_requested happy_request.

Definition used_entry : AuditEntry Z :=
  {| aud_timestamp := "2025-01-25T10:00:00.000Z"; aud_event := credential_used;
     aud_policy := Some "test-stripe"; aud_agent_id := Some "test-agent";
     aud_skill_id := None; aud_purpose := None; aud_token_id := Some "t-1";
     aud_credential_name := Some "stripe-key"; aud_scope := None;
     aud_context := None; aud_outcome := Some "used"; aud_approval := None;
     aud_details := Some (amount_text 15) |}.

Definition january_used : AuditQuery :=
  {| q_event := Some credential_used; q_policy := Some "test-stripe";
     q_agent_id := Some "test-agent"; q_since := Some "2025-01-16";
     q_limit := Some 3 |}.

(** A request whose context names [agent_id]. *)
Definition masked_request : CredentialRequest Z :=
  {| req_credential_name := "stripe-key"; req_agent_id := "agent-7";
     req_skill_id := None; req_purpose := "charge customer";
     req_amount := None; req_currency := None; req_action := None;
     req_context := Some [("agent_id", JStr "test-agent"); ("region", JStr "eu")] |}.

(** The request of scenario 1 without an amount. *)
Definition unpriced_request : CredentialRequest Z :=
  scenario_request "test-agent" None (Some "charge") "charge customer".

(** [test_stripe] with a TTL too long for a date: 9000000000000 seconds. *)
Definition endless_stripe : Policy Z :=
  {| pol_name := "test-stripe"; pol_description := None;
     pol_credential := "stripe-key";
     pol_grant_to := {| gt_agent_id := Some (Many ["test-agent"]); gt_skill_id := None |};
     pol_deny := None; pol_actions := Some ["charge"];
     pol_budget := Some {| max_per_transaction := Some 100;
                           max_per_month := Some 500; currency := None |};
     pol_approval_threshold := Some 75; pol_condition := None;
     pol_scope := None; pol_ttl := Some 9000000000000 |}.

(** [test_stripe] with the empty string for the agents it grants. *)
Definition unscoped_stripe : Policy Z :=
  {| pol_name := "test-stripe"; pol_description := None;
     pol_credential := "stripe-key";
     pol_grant_to := {| gt_agent_id := Some (One EmptyString); gt_skill_id := None |};
     pol_deny := None; pol_actions := Some ["charge"];
     pol_budget := Some {| max_per_transaction := Some 100;
                           max_per_month := Some 500; currency := None |};
     pol_approval_threshold := Some 75; pol_condition := None;
     pol_scope := None; pol_ttl := Some 60 |}.

(** The server of the scenarios with [endless_stripe] for its policy. *)
Definition endless_deps : RequestCredential.Deps :=
  {| RequestCredential.vault := scenario_vault;
     RequestCredential.policyLoader := PolicyLoader.set_all [endless_stripe];
     RequestCredential.auditLogger := [];
     RequestCredential.tokenStore := ∅ |}.

(** * Proofs *)

(** ** Strings and arrays *)

Lemma includes_In (l : list string) (x : string) : includes l x = true <-> In x l.
Proof.
  unfold includes. rewrite existsb_exists. split.
  - intros (y & Hy & Heq). apply String.eqb_eq in Heq. now subst.
  - intros Hin. exists x. split; [assumption | apply String.eqb_refl].
Qed.

Lemma includes_not_In (l : list string) (x : string) :
  includes l x = false <-> ~ In x l.
Proof.
  rewrite <- includes_In. destruct (includes l x); split; intros; congruence.
Qed.

Lemma str_truthy_ne (s : string) : str_truthy s = true <-> s <> EmptyString.
Proof. destruct s; simpl; split; intros; congruence. Qed.

Lemma prefix_append (n z : string) : String.prefix n (n +:+ z) = true.
Proof.
  induction n as [|c n IH]; simpl.
  - now destruct z.
  - destruct (ascii_dec c c); [exact IH | contradiction].
Qed.

Lemma str_includes_prefix (n h : string) :
  String.prefix n h = true -> str_includes n h = true.
Proof. destruct h; simpl; intros ->; reflexivity. Qed.

Lemma str_includes_here (n z : string) : str_includes n (n +:+ z) = true.
Proof. apply str_includes_prefix, prefix_append. Qed.

Lemma str_includes_later (n x y : string) :
  str_includes n y = true -> str_includes n (x +:+ y) = true.
Proof.
  intros Hy. induction x as [|c x IH]; simpl; [exact Hy |].
  rewrite IH. apply orb_true_r.
Qed.

(** A template literal that quotes the name, somewhere after its start. *)
Lemma names_policy (a x b n z : string) :
  str_includes n (a +:+ x +:+ b +:+ n +:+ z) = true.
Proof. do 3 apply str_includes_later. apply str_includes_here. Qed.

(** ** The policy engine *)

Section EngineProofs.
Context {num : Type} `{JsNumber num} `{CelRuntime num}.
Import PolicyEngine EngineSpec.

Variables (policy : Policy num) (request : CredentialRequest num)
          (monthlySpending : option num).

Local Abbreviation Fails c := (fails c policy request monthlySpending).

Lemma explicit_deny_reflect :
  match pol_deny policy with
  | Some l => includes l (req_agent_id request)
  | None => false
  end = true <-> Fails ExplicitDeny.
Proof.
  simpl. destruct (pol_deny policy) as [l|].
  - rewrite includes_In. split; [intros; eauto | intros (l' & [= <-] & Hin); exact Hin].
  - split; [discriminate | intros (l' & [=] & _)].
Qed.

Lemma names_scope_truthy (g : option str_or_list) (xs : list string) :
  names_scope g xs <-> scope_truthy g = Some xs.
Proof.
  destruct g as [[s | l]|]; simpl.
  - destruct s; simpl.
    + split; [intros [Hne _]; congruence | discriminate].
    + split; [intros [_ ->]; reflexivity | intros [= <-]; split; congruence].
  - split; [intros ->; reflexivity | intros [= <-]; reflexivity].
  - split; [contradiction | discriminate].
Qed.

Lemma scope_miss_reflect (g : option str_or_list) (x : string) :
  match scope_truthy g with
  | Some xs => negb (includes xs "*") && negb (includes xs x)
  | None => false
  end = true
  <-> exists xs, names_scope g xs /\ ~ In "*" xs /\ ~ In x xs.
Proof.
  setoid_rewrite names_scope_truthy.
  destruct (scope_truthy g) as [xs|].
  - rewrite andb_true_iff, !negb_true_iff, !includes_not_In. split.
    + intros [? ?]. eauto.
    + intros (xs' & [= <-] & ? & ?). auto.
  - split; [discriminate | intros (xs' & [=] & _)].
Qed.

Lemma grant_agent_reflect :
  match scope_truthy (gt_agent_id (pol_grant_to policy)) with
  | Some agents =>
      negb (includes agents "*") && negb (includes agents (req_agent_id request))
  | None => false
  end = true <-> Fails GrantAgent.
Proof. apply scope_miss_reflect. Qed.

Lemma grant_skill_reflect :
  match req_skill_id request, scope_truthy (gt_skill_id (pol_grant_to policy)) with
  | Some skill, Some skills =>
      str_truthy skill && negb (includes skills "*") && negb (includes skills skill)
  | _, _ => false
  end = true <-> Fails GrantSkill.
Proof.
  simpl. setoid_rewrite names_scope_truthy.
  destruct (req_skill_id request) as [skill|].
  - destruct (scope_truthy (gt_skill_id (pol_grant_to policy))) as [skills|].
    + rewrite !andb_true_iff, !negb_true_iff, !includes_not_In, str_truthy_ne. split.
      * intros [[? ?] ?]. exists skill, skills. auto.
      * intros (s & ss & [= <-] & ? & [= <-] & ? & ?). auto.
    + split; [discriminate | intros (s & ss & _ & _ & [=] & _)].
  - split; [discriminate | intros (s & ss & [=] & _)].
Qed.

Lemma actions_reflect :
  match pol_actions policy, req_action request with
  | Some actions, Some action => str_truthy action && negb (includes actions action)
  | _, _ => false
  end = true <-> Fails Actions.
Proof.
  simpl. destruct (pol_actions policy) as [actions|].
  - destruct (req_action request) as [action|].
    + rewrite andb_true_iff, negb_true_iff, includes_not_In, str_truthy_ne. split.
      * intros [? ?]. exists actions, action. auto.
      * intros (a & b & [= <-] & [= <-] & ? & ?). auto.
    + split; [discriminate | intros (a & b & _ & [=] & _)].
  - split; [discriminate | intros (a & b & [=] & _)].
Qed.

Lemma per_transaction_reflect :
  match pol_budget policy ≫= max_per_transaction, req_amount request with
  | Some limit, Some amount => num_gt amount limit
  | _, _ => false
  end = true <-> Fails PerTransaction.
Proof.
  simpl. destruct (pol_budget policy) as [b|]; simpl.
  - destruct (max_per_transaction b) as [limit|] eqn:Elim.
    + destruct (req_amount request) as [amount|].
      * split; [intros; exists b, limit, amount; auto |].
        intros (b' & l' & a' & [= <-] & Hl & [= <-] & Hgt). congruence.
      * split; [discriminate | intros (b' & l' & a' & _ & _ & [=] & _)].
    + split; [discriminate |].
      intros (b' & l' & a' & [= <-] & Hl & _). congruence.
  - split; [discriminate | intros (b' & l' & a' & [=] & _)].
Qed.

Lemma monthly_reflect :
  match pol_budget policy ≫= max_per_month, req_amount request with
  | Some limit, Some amount =>
      num_gt (num_add (default num_zero monthlySpending) amount) limit
  | _, _ => false
  end = true <-> Fails Monthly.
Proof.
  simpl. destruct (pol_budget policy) as [b|]; simpl.
  - destruct (max_per_month b) as [limit|] eqn:Elim.
    + destruct (req_amount request) as [amount|].
      * split; [intros; exists b, limit, amount; auto |].
        intros (b' & l' & a' & [= <-] & Hl & [= <-] & Hgt). congruence.
      * split; [discriminate | intros (b' & l' & a' & _ & _ & [=] & _)].
    + split; [discriminate |].
      intros (b' & l' & a' & [= <-] & Hl & _). congruence.
  - split; [discriminate | intros (b' & l' & a' & [=] & _)].
Qed.

Lemma approval_reflect :
  match pol_approval_threshold policy, req_amount request with
  | Some threshold, Some amount => num_gt amount threshold
  | _, _ => false
  end = true <-> Fails ApprovalThreshold.
Proof.
  simpl. destruct (pol_approval_threshold policy) as [threshold|].
  - destruct (req_amount request) as [amount|].
    + split; [intros; exists threshold, amount; auto |].
      intros (t' & a' & [= <-] & [= <-] & Hgt). exact Hgt.
    + split; [discriminate | intros (t' & a' & _ & [=] & _)].
  - split; [discriminate | intros (t' & a' & [=] & _)].
Qed.

(** Steps 1 to 4 pass exactly when none of the four checks fails. *)
Lemma evaluate_scope_passes :
  evaluate_scope policy request = None
  <-> ~ Fails ExplicitDeny /\ ~ Fails GrantAgent /\ ~ Fails GrantSkill
      /\ ~ Fails Actions.
Proof.
  rewrite <- explicit_deny_reflect, <- grant_agent_reflect, <- grant_skill_reflect,
    <- actions_reflect.
  unfold evaluate_scope.
  repeat match goal with
         | |- context [if ?b then _ else _] => destruct b
         end;
    split; try discriminate; try tauto; intuition congruence.
Qed.

Lemma evaluate_amount_passes :
  evaluate_amount policy request monthlySpending = None
  <-> ~ Fails PerTransaction /\ ~ Fails Monthly /\ ~ Fails ApprovalThreshold.
Proof.
  rewrite <- per_transaction_reflect, <- monthly_reflect, <- approval_reflect.
  unfold evaluate_amount.
  repeat match goal with
         | |- context [if ?b then _ else _] => destruct b
         end;
    split; try discriminate; try tauto; intuition congruence.
Qed.

Lemma evaluate_condition_passes :
  evaluate_condition policy request = None <-> ~ Fails Condition.
Proof.
  unfold evaluate_condition. simpl.
  destruct (pol_condition policy) as [condition|].
  - destruct (str_truthy condition) eqn:Etruthy.
    + apply str_truthy_ne in Etruthy.
      destruct (celEvaluate condition (celContext request)) eqn:Ecel.
      * split; [| reflexivity]. intros _ (c & [= <-] & _ & Hne). congruence.
      * split; [discriminate |]. intros Hno. exfalso. apply Hno.
        exists condition. rewrite Ecel. repeat split; congruence.
      * split; [discriminate |]. intros Hno. exfalso. apply Hno.
        exists condition. rewrite Ecel. repeat split; congruence.
    + split; [| reflexivity]. intros _ (c & [= <-] & Hne & _).
      apply str_truthy_ne in Hne. congruence.
  - split; [| reflexivity]. intros _ (c & [=] & _).
Qed.

Ltac earlier_pass :=
  let c' := fresh "c" in
  let Hlt := fresh "Hlt" in
  intros c' Hlt; destruct c'; simpl in Hlt; try lia;
  first [ rewrite <- explicit_deny_reflect | rewrite <- grant_agent_reflect
        | rewrite <- grant_skill_reflect | rewrite <- actions_reflect
        | rewrite <- per_transaction_reflect | rewrite <- monthly_reflect
        | rewrite <- approval_reflect ];
  congruence.

Lemma evaluate_scope_fails (res : PolicyEvalResult num) :
  evaluate_scope policy request = Some res ->
  exists c,
    first_failing c policy request monthlySpending
    /\ quotes_policy c = true
    /\ decision res = deny
    /\ res_policy_name res = Some (pol_name policy)
    /\ res_scope res = None
    /\ str_includes (pol_name policy) (reason res) = true
    /\ reason res = reason_of c policy request monthlySpending.
Proof.
  unfold evaluate_scope, first_failing.
  destruct (match pol_deny policy with Some _ => _ | None => _ end) eqn:E1.
  { intros [= <-]. exists ExplicitDeny. rewrite <- explicit_deny_reflect.
    repeat split; [assumption | earlier_pass | apply names_policy]. }
  destruct (match scope_truthy (gt_agent_id _) with Some _ => _ | None => _ end) eqn:E2.
  { intros [= <-]. exists GrantAgent. rewrite <- grant_agent_reflect.
    repeat split; [assumption | earlier_pass | apply names_policy]. }
  destruct (match req_skill_id request with Some _ => _ | None => _ end) eqn:E3.
  { intros [= <-]. exists GrantSkill. rewrite <- grant_skill_reflect.
    repeat split; [assumption | earlier_pass | apply names_policy]. }
  destruct (match pol_actions policy with Some _ => _ | None => _ end) eqn:E4.
  { intros [= <-]. exists Actions. rewrite <- actions_reflect.
    repeat split; [assumption | earlier_pass | apply names_policy]. }
  discriminate.
Qed.

Lemma evaluate_amount_fails (res : PolicyEvalResult num) :
  evaluate_scope policy request = None ->
  evaluate_amount policy request monthlySpending = Some res ->
  exists c,
    first_failing c policy request monthlySpending
    /\ quotes_policy c = false
    /\ decision res = verdict c
    /\ res_policy_name res = Some (pol_name policy)
    /\ res_scope res =
         match c with ApprovalThreshold => pol_scope policy | _ => None end
    /\ reason res = reason_of c policy request monthlySpending.
Proof.
  intros (N1 & N2 & N3 & N4)%evaluate_scope_passes.
  unfold evaluate_amount, first_failing.
  destruct (match pol_budget policy ≫= max_per_transaction with
            | Some _ => _ | None => _ end) eqn:E5.
  { intros [= <-]. exists PerTransaction. rewrite <- per_transaction_reflect.
    repeat split; auto.
    intros c' Hlt; destruct c'; simpl in Hlt; try lia; assumption. }
  destruct (match pol_budget policy ≫= max_per_month with
            | Some _ => _ | None => _ end) eqn:E6.
  { intros [= <-]. exists Monthly. rewrite <- monthly_reflect.
    repeat split; auto.
    intros c' Hlt; destruct c'; simpl in Hlt; try lia; try assumption.
    rewrite <- per_transaction_reflect. congruence. }
  destruct (match pol_approval_threshold policy with
            | Some _ => _ | None => _ end) eqn:E7.
  { intros [= <-]. exists ApprovalThreshold. rewrite <- approval_reflect.
    repeat split; auto.
    intros c' Hlt; destruct c'; simpl in Hlt; try lia; try assumption.
    - rewrite <- per_transaction_reflect. congruence.
    - rewrite <- monthly_reflect. congruence. }
  discriminate.
Qed.

Lemma evaluate_condition_fails (res : PolicyEvalResult num) :
  evaluate_condition policy request = Some res ->
  decision res = deny /\ res_policy_name res = Some (pol_name policy)
  /\ res_scope res = None /\ Fails Condition.
Proof.
  unfold evaluate_condition. simpl.
  destruct (pol_condition policy) as [condition|]; [| discriminate].
  destruct (str_truthy condition) eqn:Etruthy; [| discriminate].
  apply str_truthy_ne in Etruthy.
  destruct (celEvaluate condition (celContext request)) eqn:Ecel;
    [discriminate | intros [= <-] .. ];
    (repeat split; [exists condition; rewrite Ecel; repeat split; congruence]).
Qed.

Lemma evaluate_condition_reason (res : PolicyEvalResult num) :
  evaluate_condition policy request = Some res ->
  reason res = reason_of Condition policy request monthlySpending.
Proof.
  unfold evaluate_condition, reason_of.
  destruct (pol_condition policy) as [condition|]; [| discriminate].
  destruct (str_truthy condition); [| discriminate].
  destruct (celEvaluate condition (celContext request));
    [discriminate | now intros [= <-] ..].
Qed.

End EngineProofs.


(** An empty string for the agents a policy grants is as good as no agent
    scope: the agent of scenario 2 passes every check. *)
Example empty_selector_grants_everyone :
  decision (PolicyEngine.evaluate unscoped_stripe
              (scenario_request "unauthorized-agent" (Some 25) (Some "charge")
                 "steal money") (Some 0)) = allow.
Proof. reflexivity. Qed.

(** ** [evaluateFirst] *)

Section EvaluateFirstProofs.
Context {num : Type} `{JsNumber num} `{CelRuntime num}.
Import PolicyEngine.

Variables (request : CredentialRequest num) (monthlySpending : option num).

Local Abbreviation denies policy :=
  (decision (evaluate policy request monthlySpending) = deny).

Lemma evaluateFirst_loop_found (matching : list (Policy num))
    (result : PolicyEvalResult num) :
  evaluateFirst_loop matching request monthlySpending = Some result ->
  exists earlier policy later,
    matching = (earlier ++ policy :: later)%list
    /\ Forall (fun q => denies q) earlier
    /\ ~ denies policy
    /\ result = evaluate policy request monthlySpending.
Proof.
  induction matching as [|p rest IH]; simpl; [discriminate |].
  destruct (decision (evaluate p request monthlySpending)) eqn:Ed.
  - intros [= <-]. exists [], p, rest. repeat split; auto. congruence.
  - intros Hrest. destruct (IH Hrest) as (earlier & q & later & -> & Hall & Hq & ->).
    exists (p :: earlier), q, later. repeat split; auto.
  - intros [= <-]. exists [], p, rest. repeat split; auto. congruence.
Qed.

Lemma evaluateFirst_loop_all_deny (matching : list (Policy num)) :
  evaluateFirst_loop matching request monthlySpending = None ->
  Forall (fun q => denies q) matching.
Proof.
  induction matching as [|p rest IH]; simpl; [constructor |].
  destruct (decision (evaluate p request monthlySpending)) eqn:Ed;
    try discriminate.
  intros Hrest. constructor; auto.
Qed.

(** C4.  [evaluateFirst] looks at the policies whose [credential] is the one
    requested, in the order of the document.  With none it denies with the
    reason "No policy found for credential '...'."; otherwise it returns the
    result of the first candidate that does not deny, and the denial of the
    last candidate when every candidate denies. *)
Theorem evaluateFirst_first_match (policies : list (Policy num)) :
  let matching :=
    filter (fun p => pol_credential p = req_credential_name request) policies in
  let result := evaluateFirst policies request monthlySpending in
  (matching = []
   /\ result =
        {| decision := deny;
           reason := "No policy found for credential '" +:+
                     req_credential_name request +:+ "'.";
           res_scope := None; res_policy_name := None |})
  \/ (exists earlier policy later,
        matching = (earlier ++ policy :: later)%list
        /\ Forall (fun q => denies q) earlier
        /\ ~ denies policy
        /\ result = evaluate policy request monthlySpending)
  \/ (exists earlier final,
        matching = (earlier ++ [final])%list
        /\ Forall (fun q => denies q) matching
        /\ result = evaluate final request monthlySpending).
Proof.
  intros matching result. subst result. unfold evaluateFirst. fold matching.
  destruct (last matching) as [final|] eqn:Elast.
  - apply last_Some in Elast as [earlier Hm].
    destruct (evaluateFirst_loop matching request monthlySpending) as [r|] eqn:Eloop.
    + right. left. apply evaluateFirst_loop_found. exact Eloop.
    + right. right. exists earlier, final. repeat split; auto.
      apply evaluateFirst_loop_all_deny. exact Eloop.
  - left. apply last_None in Elast. auto.
Qed.
End EvaluateFirstProofs.

(** ** Maps in insertion order *)

Section MapProofs.
Context {V : Type}.
Implicit Types (m : list (string * V)) (k : string) (v : V).

Lemma Map_get_set_eq k v m : Map_get k (Map_set k v m) = Some v.
Proof.
  induction m as [|[k' v'] m IH]; simpl.
  - now rewrite String.eqb_refl.
  - destruct (String.eqb k' k) eqn:E; simpl.
    + now rewrite String.eqb_refl.
    + now rewrite E.
Qed.

Lemma Map_get_set_ne k k' v m :
  k <> k' -> Map_get k' (Map_set k v m) = Map_get k' m.
Proof.
  intros Hne. induction m as [|[k0 v0] m IH]; simpl.
  - apply String.eqb_neq in Hne. now rewrite Hne.
  - destruct (String.eqb k0 k) eqn:E; simpl.
    + apply String.eqb_eq in E. subst k0.
      apply String.eqb_neq in Hne. now rewrite Hne.
    + now rewrite IH.
Qed.

Lemma Map_set_keys k v m :
  map fst (Map_set k v m) = map fst m
  \/ (~ In k (map fst m) /\ map fst (Map_set k v m) = (map fst m ++ [k])%list).
Proof.
  induction m as [|[k' v'] m IH]; simpl.
  - right. auto.
  - destruct (String.eqb k' k) eqn:E; simpl.
    + apply String.eqb_eq in E. subst. now left.
    + apply String.eqb_neq in E. destruct IH as [-> | [Hnot ->]]; [now left |].
      right. split; [| reflexivity]. intros [? | ?]; auto.
Qed.

Lemma Map_set_NoDup k v m :
  List.NoDup (map fst m) -> List.NoDup (map fst (Map_set k v m)).
Proof.
  intros Hnd. destruct (Map_set_keys k v m) as [-> | [Hnot ->]]; [exact Hnd |].
  apply NoDup_ListNoDup, NoDup_app. apply NoDup_ListNoDup in Hnd.
  repeat split; [exact Hnd | | apply NoDup_singleton].
  intros x Hx ->%list_elem_of_singleton. apply Hnot, list_elem_of_In, Hx.
Qed.

Lemma Map_set_In k v m (x : string * V) :
  In x (Map_set k v m) -> x = (k, v) \/ In x m.
Proof.
  induction m as [|[k' v'] m IH]; simpl.
  - intros [<- | []]. now left.
  - destruct (String.eqb k' k); simpl; intros [<- | Hin]; auto.
    destruct (IH Hin); auto.
Qed.

Lemma Map_get_In k v m :
  List.NoDup (map fst m) -> In (k, v) m -> Map_get k m = Some v.
Proof.
  induction m as [|[k' v'] m IH]; simpl; [intros _ [] |].
  intros Hnd [[= -> ->] | Hin].
  - now rewrite String.eqb_refl.
  - inversion Hnd as [|? ? Hnot Hnd']; subst.
    destruct (String.eqb k' k) eqn:E; [| now apply IH].
    apply String.eqb_eq in E. subst k'. exfalso. apply Hnot.
    apply (in_map fst) in Hin. exact Hin.
Qed.

Lemma Map_get_Some_In k v m : Map_get k m = Some v -> In (k, v) m.
Proof.
  induction m as [|[k' v'] m IH]; simpl; [discriminate |].
  destruct (String.eqb k' k) eqn:E; [| auto].
  apply String.eqb_eq in E. intros [= ->]. subst k'. now left.
Qed.

(** A key the reader does not ask for can be put anywhere. *)
Lemma Map_get_skip k k' v (o1 o2 : list (string * V)) :
  k <> k' -> Map_get k' (o1 ++ (k, v) :: o2) = Map_get k' (o1 ++ o2).
Proof.
  intros Hne. induction o1 as [|[k0 v0] o1 IH]; simpl.
  - apply String.eqb_neq in Hne. now rewrite Hne.
  - now rewrite IH.
Qed.
End MapProofs.

(** ** The policy loader *)

Section LoaderProofs.
Context {num : Type} `{JsNumber num}.
Import PolicyLoader.

Implicit Types (m : list (string * Policy num)) (p : Policy num).

Local Abbreviation step := set_policy.

Lemma step_keyed m p : keyed m -> keyed (step m p).
Proof.
  unfold keyed, set_policy. rewrite !List.Forall_forall. intros Hm x Hx.
  apply Map_set_In in Hx as [-> | Hx]; [reflexivity | auto].
Qed.

Lemma fold_keyed (ps : list (Policy num)) m :
  keyed m -> List.NoDup (map fst m) ->
  keyed (fold_left step ps m) /\ List.NoDup (map fst (fold_left step ps m)).
Proof.
  revert m. induction ps as [|p ps IH]; simpl; [auto |].
  intros m Hk Hnd. apply IH; [apply step_keyed, Hk | apply Map_set_NoDup, Hnd].
Qed.

Lemma last_named_cons (n : string) (p : Policy num) ps :
  last_named n (p :: ps) =
  match last_named n ps with
  | Some q => Some q
  | None => if String.eqb (pol_name p) n then Some p else None
  end.
Proof.
  unfold last_named. simpl. destruct (String.eqb (pol_name p) n); [| now destruct (last _)].
  apply last_cons.
Qed.

Lemma fold_get (ps : list (Policy num)) m (n : string) :
  Map_get n (fold_left step ps m) =
  match last_named n ps with
  | Some p => Some p
  | None => Map_get n m
  end.
Proof.
  revert m. induction ps as [|p ps IH]; intros m; simpl; [reflexivity |].
  rewrite IH, last_named_cons. destruct (last_named n ps); [reflexivity |].
  unfold set_policy. destruct (String.eqb (pol_name p) n) eqn:E.
  - apply String.eqb_eq in E. subst n. apply Map_get_set_eq.
  - apply String.eqb_neq in E. now apply Map_get_set_ne.
Qed.

Lemma keyed_names m : keyed m -> map pol_name (Map_values m) = map fst m.
Proof.
  unfold Map_values. induction 1 as [|[k p] m Hk _ IH]; simpl; [reflexivity |].
  simpl in Hk. now rewrite IH, Hk.
Qed.


(** C2, as amended.  A key that the schema does not name is dropped, not
    rejected: with such a key at the top level the document loads as it
    does without it, and a policy that carries one parses as it does
    without it. *)
Theorem unknown_keys_are_dropped (k : string) (v : json num)
    (o1 o2 : list (string * json num)) :
  (~ In k file_keys ->
   loadFromObject (JObj (o1 ++ (k, v) :: o2)) = loadFromObject (JObj (o1 ++ o2)))
  /\ (~ In k policy_keys ->
      Zod.PolicySchema (JObj (o1 ++ (k, v) :: o2)) = Zod.PolicySchema (JObj (o1 ++ o2))).
Proof.
  split; intros Hk.
  - unfold loadFromObject, Zod.PolicyFileSchema.
    repeat rewrite Map_get_skip by (intros ->; apply Hk; simpl; tauto).
    reflexivity.
  - unfold Zod.PolicySchema.
    repeat rewrite Map_get_skip by (intros ->; apply Hk; simpl; tauto).
    reflexivity.
Qed.
End LoaderProofs.

(** C2 as stated fails: a document with an unknown top-level key ([owner])
    and an unknown key in a policy (a misspelt [condition]) is accepted, and
    loads to the very policies the document without them loads to. *)
Lemma typo_document_is_accepted :
  PolicyLoader.loadFromObject typo_document = Some [("test-stripe", test_stripe)]
  /\ PolicyLoader.loadFromObject typo_document
     = PolicyLoader.loadFromObject policy_document.
Proof. split; reflexivity. Qed.

Lemma unknown_keys_witness :
  (~ In "owner" file_keys /\ ~ In "conditon" policy_keys)
  /\ PolicyLoader.loadFromObject
       (JObj ([("version", JStr "1")] ++ ("owner", JStr "ops")
              :: [("policies", JArr [plain_policy_json "deploy" "npm-token" "agent-3"])]))
     = Some [("deploy", plain_policy "deploy" "npm-token" "agent-3")]
  /\ Zod.PolicySchema
       (JObj ([("name", JStr "deploy"); ("credential", JStr "npm-token")]
              ++ ("conditon", JStr "amount < 10")
              :: [("grant_to", JObj [("agent_id", JStr "agent-3")])]))
     = Some (plain_policy "deploy" "npm-token" "agent-3").
Proof.
  assert (Hfile : ~ In "owner" file_keys) by (simpl; intuition discriminate).
  assert (Hpol : ~ In "conditon" policy_keys) by (simpl; intuition discriminate).
  split; [split; assumption |]. split.
  - rewrite (proj1 (unknown_keys_are_dropped (num := Z) "owner" (JStr "ops")
                      [("version", JStr "1")]
                      [("policies",
                        JArr [plain_policy_json "deploy" "npm-token" "agent-3"])])
               Hfile).
    reflexivity.
  - rewrite (proj2 (unknown_keys_are_dropped (num := Z) "conditon" (JStr "amount < 10")
                      [("name", JStr "deploy"); ("credential", JStr "npm-token")]
                      [("grant_to", JObj [("agent_id", JStr "agent-3")])])
               Hpol).
    reflexivity.
Defined.


(** The document with two policies named [deploy]: the later one is kept,
    in the place of the earlier one. *)
Example duplicate_document_loads :
  PolicyLoader.listPolicies
    (default [] (PolicyLoader.loadFromObject duplicate_document))
  = [ plain_policy "deploy" "npm-token" "agent-3";
      plain_policy "billing" "stripe-key" "agent-2" ].
Proof. reflexivity. Qed.

(** ** The token store *)

Section TokenProofs.
Context {num : Type}.
Import TokenStore.

(** C7.  A token issued at clock reading [now] with a TTL of [T] seconds
    (300 when the TTL is left out) has [issued_at = now] and
    [expires_at = now + T * 1000].  At a clock reading before [expires_at],
    [get] returns the token and leaves the store as it is; at a reading of
    [expires_at] or later it returns [null] and deletes the entry. *)
Theorem issue_then_get (params : IssueParams num) (now : Z) (id : string)
    (self : gmap string (ScopedToken num)) (later : Z) :
  let store := fst (issue params now id self) in
  let token := snd (issue params now id self) in
  issued_at token = now
  /\ expires_at token = now + default 300 (ip_ttl params) * 1000
  /\ (later < expires_at token -> get (token_id token) later store = (store, Some token))
  /\ (expires_at token <= later ->
      get (token_id token) later store = (delete (token_id token) store, None)).
Proof.
  simpl. repeat split.
  - intros Hlive. unfold get. rewrite lookup_insert_eq. simpl.
    destruct (Z.geb_spec later (now + default 300 (ip_ttl params) * 1000));
      [lia | reflexivity].
  - intros Hdead. unfold get. rewrite lookup_insert_eq. simpl.
    destruct (Z.geb_spec later (now + default 300 (ip_ttl params) * 1000));
      [reflexivity | lia].
Qed.
End TokenProofs.

Lemma issue_then_get_witness :
  let store := fst (TokenStore.issue example_params 1000 "t-1" ∅) in
  let token := snd (TokenStore.issue example_params 1000 "t-1" ∅) in
  (60999 < expires_at token /\ expires_at token <= 61000)
  /\ TokenStore.get "t-1" 60999 store = (store, Some token)
  /\ TokenStore.get "t-1" 61000 store = (delete "t-1" store, None).
Proof.
  assert (Hlive : 60999 < 1000 + 60 * 1000) by lia.
  assert (Hdead : 1000 + 60 * 1000 <= 61000) by lia.
  split; [split; assumption |]. split.
  - exact (proj1 (proj2 (proj2 (issue_then_get example_params 1000 "t-1" ∅ 60999))) Hlive).
  - exact (proj2 (proj2 (proj2 (issue_then_get example_params 1000 "t-1" ∅ 61000))) Hdead).
Defined.

(** The default TTL is 300 seconds. *)
Example default_ttl :
  expires_at
    (snd (TokenStore.issue
            {| ip_credential_name := "stripe-key"; ip_credential_value := "v";
               ip_policy_name := "test-stripe"; ip_agent_id := "test-agent";
               ip_skill_id := None; ip_scope := @None (list (string * json Z));
               ip_ttl := None |} 1000 "t-2" ∅))
  = 301000.
Proof. reflexivity. Qed.

(** ** The audit log *)

(** A digit or a hyphen in a LIKE pattern is no wild card and matches only
    itself. *)
Lemma month_char_like (c : ascii) :
  month_char c = true ->
  Ascii.eqb c "%" = false /\ Ascii.eqb c "_" = false
  /\ forall d, Ascii.eqb (ascii_lower c) (ascii_lower d)
               = if ascii_dec c d then true else false.
Proof.
  destruct c as [[] [] [] [] [] [] [] []]; intros Hc; vm_compute in Hc;
    try discriminate Hc;
    (split; [reflexivity |
     split; [reflexivity | intros [[] [] [] [] [] [] [] []]; reflexivity]]).
Qed.

Lemma sql_like_percent (text : string) : sql_like "%" text = true.
Proof.
  induction text as [|d text IH]; [reflexivity |].
  change (sql_like EmptyString (String d text) || sql_like "%" text = true).
  rewrite IH. apply orb_true_r.
Qed.

Lemma sql_like_prefix (m text : string) :
  month_chars m = true -> sql_like (m +:+ "%") text = String.prefix m text.
Proof.
  revert text. induction m as [|c m IH]; intros text.
  - intros _. change (sql_like "%" text = String.prefix EmptyString text).
    rewrite sql_like_percent. now destruct text.
  - intros [Hc Hm]%andb_true_iff.
    destruct (month_char_like c Hc) as (Hpercent & Hone & Hsame).
    change (String c m +:+ "%") with (String c (m +:+ "%")).
    cbn [sql_like]. rewrite Hpercent.
    destruct text as [|d text]; [reflexivity |].
    rewrite Hone, Hsame, IH by exact Hm. cbn [String.prefix].
    now destruct (ascii_dec c d).
Qed.

Section AuditProofs.
Context {num : Type} `{JsNumber num} `{JsonRuntime num}.
Import AuditLogger AuditSpec.

Lemma spending_where_counted (c m : string) (row : AuditRow) :
  month_chars m = true -> spending_where c (m +:+ "%") row = counted c m row.
Proof.
  intros Hm. unfold spending_where, counted. rewrite sql_like_prefix by exact Hm.
  f_equal. f_equal. destruct (row_credential_name row) as [c'|].
  - destruct (String.eqb_spec c' c) as [-> | Hne].
    + now rewrite bool_decide_eq_true_2.
    + rewrite bool_decide_eq_false_2; [reflexivity | congruence].
  - now rewrite bool_decide_eq_false_2.
Qed.

Lemma property_get (name : string) (fields : list (string * json num)) :
  property name fields = Map_get name fields.
Proof.
  unfold property. induction fields as [|[k v] fields IH]; simpl; [reflexivity |].
  now destruct (String.eqb k name).
Qed.

Lemma add_row_amount (total : num) (row : AuditRow) :
  add_row total (row_details row) =
  match amount_field row with
  | Some amount => num_add total amount
  | None => total
  end.
Proof.
  unfold add_row, amount_field. destruct (row_details row) as [d|]; [| reflexivity].
  destruct d as [|a d]; simpl.
  - now rewrite JSON_parse_empty.
  - destruct (JSON_parse (String a d)) as [parsed|]; [| reflexivity].
    destruct parsed; simpl; try reflexivity. now rewrite property_get.
Qed.

Lemma sum_rows_fold (rows : list AuditRow) (total : num) :
  sum_rows (map row_details rows) total
  = fold_left num_add (omap amount_field rows) total.
Proof.
  revert total. induction rows as [|row rows IH]; intros total; simpl; [reflexivity |].
  rewrite IH, add_row_amount. now destruct (amount_field row).
Qed.

End AuditProofs.


(** On the example log the January spending of [stripe-key] is 25 + 15. *)
Example january_spending :
  AuditLogger.getMonthlySpending example_log "stripe-key" (Some "2025-01")
    "2025-03-02T08:00:00.000Z" = 40.
Proof. reflexivity. Qed.

(** ** The vault *)

Section VaultProofs.
Context `{NodeCrypto}.
Import Vault.

Lemma locked_reads (self : t) (name : string) :
  key self = None ->
  getCredential name self
  = Throws (Error "Vault is locked. Call initialize() or unlock() first.")
  /\ listCredentials self
     = Throws (Error "Vault is locked. Call initialize() or unlock() first.").
Proof.
  intros Hkey. unfold getCredential, listCredentials, ensureUnlocked.
  rewrite Hkey. split; reflexivity.
Qed.

(** C10.  Reading needs an unlocked vault, as writing does: on a vault that
    was just opened (neither [initialize] nor [unlock] called yet) and on a
    vault after [close], [getCredential] and [listCredentials] throw the
    vault-locked error and return nothing. *)
Theorem reads_need_unlocked_vault (meta : list (string * string))
    (rows : list CredentialRecord) (self : t) (name : string) :
  getCredential name (new meta rows)
  = Throws (Error "Vault is locked. Call initialize() or unlock() first.")
  /\ listCredentials (new meta rows)
     = Throws (Error "Vault is locked. Call initialize() or unlock() first.")
  /\ getCredential name (close self)
     = Throws (Error "Vault is locked. Call initialize() or unlock() first.")
  /\ listCredentials (close self)
     = Throws (Error "Vault is locked. Call initialize() or unlock() first.").
Proof.
  destruct (locked_reads (new meta rows) name eq_refl) as [-> ->].
  destruct (locked_reads (close self) name eq_refl) as [-> ->].
  repeat split.
Qed.

(** [close] drops the reference to the key and writes to no Buffer. *)
Lemma close_writes_no_buffer (self : t) :
  key (close self) = None /\ buffers (close self) = buffers self.
Proof. split; reflexivity. Qed.

(** What [initialize] and [unlock] write to the database does not depend on
    the passphrase: the key is never stored. *)
Lemma database_is_key_free (p1 p2 : string) (salt : bytes) (self : t) :
  wallet_meta (fst (initialize p1 salt self)) = wallet_meta (fst (initialize p2 salt self))
  /\ credentials (fst (initialize p1 salt self)) = credentials (fst (initialize p2 salt self))
  /\ wallet_meta (fst (unlock p1 self)) = wallet_meta self
  /\ credentials (fst (unlock p1 self)) = credentials self.
Proof.
  unfold initialize, unlock.
  destruct (db_open self); simpl; [| repeat split].
  destruct (Map_get "salt" (wallet_meta self)); repeat split.
Qed.
End VaultProofs.

(** C6 at the failing input [initialize("integration-test-pass")] followed
    by [close()]: the vault no longer refers to the key, and the Buffer that
    held it still holds the derived key, not zeros. *)
Lemma close_leaves_key_bytes :
  let opened :=
    fst (Vault.initialize "integration-test-pass" example_salt (Vault.new [] [])) in
  let closed := Vault.close opened in
  Vault.key opened = Some 0%nat
  /\ Vault.key closed = None
  /\ Vault.buffers closed !! 0%nat
     = Some (Crypto.deriveKey "integration-test-pass" example_salt)
  /\ Vault.buffers closed !! 0%nat <> Some (repeat Byte.x00 32).
Proof. repeat split. discriminate. Qed.

(** ** The request pipeline *)

Section PipelineProofs.
Context {num : Type} `{JsNumber num} `{CelRuntime num} `{JsonRuntime num}
        `{NodeCrypto}.
Import RequestCredential.

(** A policy whose agent scope leaves the agent out does not pass the
    loader's filter. *)
Lemma ungranted_is_filtered (policy : Policy num) (request : CredentialRequest num)
    (skillId : option string) (monthlySpending : option num) :
  EngineSpec.fails GrantAgent policy request monthlySpending ->
  PolicyLoader.grants (req_agent_id request) skillId policy = false.
Proof.
  intros Hfail. apply grant_agent_reflect in Hfail.
  unfold PolicyLoader.grants. rewrite Hfail.
  now destruct (match pol_deny policy with Some _ => _ | None => _ end).
Qed.

Lemma filter_none {A : Type} (P : A -> Prop) `{forall x, Decision (P x)} (l : list A) :
  (forall x, In x l -> ~ P x) -> filter P l = [].
Proof.
  induction l as [|x l IH]; [reflexivity |]. intros Hall.
  rewrite filter_cons. destruct (decide (P x)) as [Hx | _].
  - exfalso. apply (Hall x); [now left | exact Hx].
  - apply IH. intros y Hy. apply Hall. now right.
Qed.

Lemma evaluateFirst_no_candidate (policies : list (Policy num))
    (request : CredentialRequest num) (monthlySpending : option num) :
  filter (fun p => pol_credential p = req_credential_name request) policies = [] ->
  PolicyEngine.evaluateFirst policies request monthlySpending
  = {| decision := deny;
       reason := "No policy found for credential '" +:+
                 req_credential_name request +:+ "'.";
       res_scope := None; res_policy_name := None |}.
Proof. intros Hnone. unfold PolicyEngine.evaluateFirst. now rewrite Hnone. Qed.

(** C1, as amended.  When no policy that governs the credential grants the
    requesting agent, the loader's filter leaves the engine no candidate:
    [request_credential] returns status [denied], and the reason is that of
    a credential without policy, "No policy found for credential '...'.". *)
Theorem ungranted_agent_finds_no_policy (params : CredentialRequest num)
    (env : Readings) (deps : Deps) :
  (forall policy,
      In policy (PolicyLoader.listPolicies (policyLoader deps)) ->
      pol_credential policy = req_credential_name params ->
      EngineSpec.fails GrantAgent policy params None) ->
  snd (request_credential params env deps)
  = Returns (denied ("No policy found for credential '" +:+
                     req_credential_name params +:+ "'.")).
Proof.
  intros Hnone. unfold request_credential.
  rewrite evaluateFirst_no_candidate; [reflexivity |].
  apply filter_none. intros policy Hin Hcred.
  unfold PolicyLoader.listPoliciesForAgent in Hin.
  apply List.filter_In in Hin as [Hin Hgrants]. simpl in Hin, Hgrants, Hcred.
  rewrite (ungranted_is_filtered policy params _ None) in Hgrants;
    [discriminate | now apply Hnone].
Qed.

(** The vault throws for a locked vault, a closed database or a failed
    decryption, never a [RangeError]. *)
Lemma getCredential_throws (name : string) (v : Vault.t) (e : exn) :
  Vault.getCredential name v = Throws e ->
  match e with RangeError _ => False | _ => True end.
Proof.
  unfold Vault.getCredential, Vault.ensureUnlocked.
  destruct (Vault.key v); [| now intros [= <-]].
  destruct (Vault.db_open v); simpl; [| now intros [= <-]].
  destruct (find _ (Vault.credentials v)); [| discriminate].
  destruct (Crypto.decrypt _ _); [discriminate | now intros [= <-]].
Qed.

(** C5, as amended.  Every invocation appends [credential_requested] first.
    A reply of [denied], [require_approval] or [granted] is followed by
    exactly one outcome event, [credential_denied], [approval_required] or
    [credential_granted].  The reply [error], given when the engine allows
    and the vault has no such credential, and a throwing vault are followed
    by no event, and no token is issued then.  A token is in the store
    after a [granted] reply, with the expiry the reply prints.  When the
    expiry of the token is no date the runtime can print, the callback
    throws in the end, after the token was issued and [credential_granted]
    was appended; it throws a [RangeError] for no other reason. *)
Theorem audit_trail_of_a_request (params : CredentialRequest num) (env : Readings)
    (deps : Deps) :
  let out := request_credential params env deps in
  exists rows,
    auditLogger (fst out) = (auditLogger deps ++ rows)%list
    /\ map row_event rows =
       match snd out with
       | Returns (denied _) => [credential_requested; credential_denied]
       | Returns (approval_needed _ _) => [credential_requested; approval_required]
       | Returns (granted _ _ _ _) | Throws (RangeError _) =>
           [credential_requested; credential_granted]
       | Returns (error _) | Throws _ => [credential_requested]
       end
    /\ match snd out with
       | Returns (granted id _ expiry _) =>
           exists token,
             tokenStore (fst out) !! id = Some token
             /\ expires_at token = expiry /\ Date_in_range expiry = true
       | Throws (RangeError _) =>
           exists token,
             tokenStore (fst out) !! uuid env = Some token
             /\ Date_in_range (expires_at token) = false
       | _ => tokenStore (fst out) = tokenStore deps
       end.
Proof.
  intros out. subst out. unfold request_credential.
  match goal with
  | |- context [match decision ?r with _ => _ end] => destruct (decision r)
  end.
  - match goal with
    | |- context [match Vault.getCredential ?n ?v with _ => _ end] =>
        destruct (Vault.getCredential n v) as [[credential|]|e] eqn:Evault
    end.
    + cbv zeta.
      match goal with
      | |- context [if Date_in_range ?t then _ else _] =>
          destruct (Date_in_range t) eqn:Edate
      end; simpl; eexists [_; _]; rewrite <- app_assoc;
        (split; [reflexivity |]); (split; [reflexivity |]);
        eexists; rewrite lookup_insert_eq; repeat split; exact Edate.
    + simpl. eexists [_]. repeat split.
    + apply getCredential_throws in Evault.
      simpl. eexists [_]. destruct e; try contradiction; repeat split.
  - simpl. eexists [_; _]. rewrite <- app_assoc. repeat split.
  - simpl. eexists [_; _]. rewrite <- app_assoc. repeat split.
Qed.
End PipelineProofs.

(** C1 as stated fails: in scenario 2 the reply is [denied], and its reason
    does not mention "not granted". *)
Lemma unauthorized_agent_reason :
  snd (RequestCredential.request_credential unauthorized_request scenario_readings
         (scenario_deps scenario_vault))
  = Returns (denied "No policy found for credential 'stripe-key'.")
  /\ str_includes "not granted" "No policy found for credential 'stripe-key'." = false.
Proof. split; reflexivity. Qed.

Lemma ungranted_agent_witness :
  (forall policy,
      In policy (PolicyLoader.listPolicies
                   (RequestCredential.policyLoader (scenario_deps scenario_vault))) ->
      pol_credential policy = req_credential_name unauthorized_request ->
      EngineSpec.fails GrantAgent policy unauthorized_request None)
  /\ snd (RequestCredential.request_credential unauthorized_request scenario_readings
            (scenario_deps scenario_vault))
     = Returns (denied ("No policy found for credential '" +:+
                        req_credential_name unauthorized_request +:+ "'.")).
Proof.
  assert (Hnone : forall policy,
             In policy (PolicyLoader.listPolicies
                          (RequestCredential.policyLoader (scenario_deps scenario_vault))) ->
             pol_credential policy = req_credential_name unauthorized_request ->
             EngineSpec.fails GrantAgent policy unauthorized_request None).
  { intros policy [<- | []] _. exists ["test-agent"].
    repeat split; simpl; intuition discriminate. }
  split; [exact Hnone |].
  exact (ungranted_agent_finds_no_policy unauthorized_request scenario_readings
           (scenario_deps scenario_vault) Hnone).
Defined.

(** C5 as stated fails on the very path it names: the engine allows the
    request of scenario 1, the vault holds no [stripe-key], the reply is
    [error], and [credential_requested] is the only event appended. *)
Lemma missing_credential_leaves_no_outcome :
  let out :=
    RequestCredential.request_credential happy_request scenario_readings
      (scenario_deps empty_vault) in
  snd out = Returns (error "Credential 'stripe-key' not found in vault.")
  /\ map row_event (RequestCredential.auditLogger (fst out)) = [credential_requested].
Proof. split; reflexivity. Qed.

(** With the credential in the vault the same request is granted, and the
    token lives for the 60 seconds of the policy. *)
Example happy_path :
  let out :=
    RequestCredential.request_credential happy_request scenario_readings
      (scenario_deps scenario_vault) in
  snd out
  = Returns (granted "0b7e3a52-5d0c-4c59-9a55-3f1c8f0a2d11"
               "test-credential-value-abc123" (1736935200002 + 60 * 1000) [])
  /\ map row_event (RequestCredential.auditLogger (fst out))
     = [credential_requested; credential_granted].
Proof. split; reflexivity. Qed.

(** Under a policy whose TTL carries the expiry past the last date there
    is, the same request is allowed, the token is issued and
    [credential_granted] is logged, and then the callback throws where it
    prints the expiry. *)
Example endless_ttl_throws :
  let out :=
    RequestCredential.request_credential happy_request scenario_readings
      endless_deps in
  snd out = Throws (RangeError "Invalid time value")
  /\ map row_event (RequestCredential.auditLogger (fst out))
     = [credential_requested; credential_granted]
  /\ expires_at <$> (RequestCredential.tokenStore (fst out)
                       !! "0b7e3a52-5d0c-4c59-9a55-3f1c8f0a2d11")
     = Some 9001736935200002.
Proof. repeat split. Qed.

(** * More of the code *)

(** ** The token store: [markUsed], [purgeExpired], [get], [issue] *)

Section TokenStoreMore.
Context {num : Type}.
Import TokenStore.
Implicit Types (self : gmap string (ScopedToken num)) (token : ScopedToken num).

Lemma mark_mark token : mark (mark token) = mark token.
Proof. reflexivity. Qed.

Lemma get_Some id now self token :
  snd (get id now self) = Some token
  <-> self !! id = Some token /\ now < expires_at token.
Proof.
  unfold get. destruct (self !! id) as [t|]; simpl.
  - destruct (Z.geb_spec now (expires_at t)); simpl.
    + split; [discriminate | intros [[= ->] ?]; lia].
    + split; [intros [= ->]; split; [reflexivity | lia] | now intros [[= ->] _]].
  - split; [discriminate | now intros [? _]].
Qed.


Lemma purge_lookup (now : Z) self (id : string) token :
  fst (purgeExpired now self) !! id = Some token
  <-> self !! id = Some token /\ now < expires_at token.
Proof.
  unfold purgeExpired. simpl. rewrite map_lookup_filter_Some. simpl.
  split; intros [Hin Hlive]; (split; [exact Hin | lia]).
Qed.

(** X2.  [purgeExpired] keeps exactly the tokens that have not expired, the
    number it returns is the number of entries it removed, and purging
    again at the same time removes nothing. *)
Theorem purgeExpired_removes_the_expired (now : Z) self :
  (forall id token,
      fst (purgeExpired now self) !! id = Some token
      <-> self !! id = Some token /\ now < expires_at token)
  /\ (snd (purgeExpired now self) + size (fst (purgeExpired now self)))%nat = size self
  /\ purgeExpired now (fst (purgeExpired now self)) = (fst (purgeExpired now self), 0%nat).
Proof.
  unfold purgeExpired. simpl.
  set (live := fun kv : string * ScopedToken num => ~ now >= expires_at (snd kv)).
  assert (Hle : (size (filter live self) <= size self)%nat)
    by (apply map_subseteq_size, map_filter_subseteq).
  split; [| split].
  - intros id token. rewrite map_lookup_filter_Some. unfold live. simpl.
    split; intros [Hin Hlive]; (split; [exact Hin | lia]).
  - lia.
  - assert (Hsame : filter live (filter live self) = filter live self).
    { apply map_eq. intros id. apply option_eq. intros t.
      rewrite !map_lookup_filter_Some. tauto. }
    rewrite Hsame. f_equal. lia.
Qed.

(** X3.  [get] hands out a token only when it is stored under that id and
    has not expired; purging first does not change its answer; and the
    only entry [get] can remove is the one asked for. *)
Theorem get_never_returns_expired (id : string) (now : Z) self :
  (forall token,
      snd (get id now self) = Some token
      <-> self !! id = Some token /\ now < expires_at token)
  /\ snd (get id now (fst (purgeExpired now self))) = snd (get id now self)
  /\ forall id', id' <> id -> fst (get id now self) !! id' = self !! id'.
Proof.
  split; [intros token; apply get_Some |]. split.
  - apply option_eq. intros token. rewrite !get_Some, purge_lookup. tauto.
  - intros id' Hne. unfold get. destruct (self !! id) as [t|]; [| reflexivity].
    destruct (now >=? expires_at t); simpl; [| reflexivity].
    now rewrite lookup_delete_ne.
Qed.

(** X4.  Issuing a token leaves every other token as it was: [get] of
    another id answers the same before and after. *)
Theorem issue_leaves_others (params : IssueParams num) (now : Z) (id id' : string)
    (later : Z) self :
  id' <> id ->
  snd (get id' later (fst (issue params now id self))) = snd (get id' later self).
Proof.
  intros Hne. unfold issue, get. simpl. rewrite lookup_insert_ne by congruence.
  destruct (self !! id') as [t|]; [| reflexivity].
  now destruct (later >=? expires_at t).
Qed.
End TokenStoreMore.

(** ** The vault: adding, reading back, removing, reopening *)

Section VaultMore.
Context `{NodeCrypto}.
Import Vault.

Lemma decrypt_encrypt (plaintext : string) (k nonce : bytes) :
  crypto_round_trips ->
  Crypto.decrypt (Crypto.encrypt plaintext k nonce) k = Some plaintext.
Proof.
  intros [Hseal _]. unfold Crypto.decrypt, Crypto.encrypt. simpl.
  rewrite Hseal. simpl. now rewrite string_of_list_byte_of_string.
Qed.

Lemma find_app_miss {A : Type} (f : A -> bool) (l1 l2 : list A) :
  existsb f l1 = false -> find f (l1 ++ l2) = find f l2.
Proof.
  induction l1 as [|x l1 IH]; simpl; [reflexivity |].
  destruct (f x); simpl; [discriminate | exact IH].
Qed.

Lemma find_app_other {A : Type} (f : A -> bool) (l : list A) (x : A) :
  f x = false -> find f (l ++ [x]) = find f l.
Proof.
  intros Hx. induction l as [|y l IH]; simpl; [now rewrite Hx |].
  now destruct (f y).
Qed.

Lemma existsb_or_false {A : Type} (f g : A -> bool) (l : list A) :
  existsb (fun x => f x || g x) l = false -> existsb f l = false.
Proof.
  induction l as [|x l IH]; simpl; [reflexivity |].
  intros [[-> _]%orb_false_iff Hl]%orb_false_iff. simpl. now apply IH.
Qed.

(** X5.  On a vault that is unlocked, with a name and an id that are not
    in use, [addCredential] returns the new id, [getCredential] of that
    name then returns the value that was added, with its type, metadata and
    dates, and every other name reads as before. *)
Theorem add_then_get (name : string) (type : CredentialType) (value : string)
    (metadata : list (string * string)) (id now : string) (nonce : bytes)
    (self : t) :
  crypto_round_trips -> serving self ->
  existsb (fun r => String.eqb (rec_name r) name || String.eqb (rec_id r) id)
    (credentials self) = false ->
  let added := addCredential name type value metadata id now nonce self in
  snd added = Returns id
  /\ getCredential name (fst added)
     = Returns (Some {| cred_id := id; cred_name := name; cred_type := type;
                        cred_value := value; cred_metadata := metadata;
                        cred_created_at := now; cred_updated_at := now |})
  /\ forall other, other <> name ->
       getCredential other (fst added) = getCredential other self.
Proof.
  intros Hcrypto [Hopen [ref Hkey]] Hfresh. unfold addCredential, ensureUnlocked.
  rewrite Hkey, Hopen, Hfresh. simpl. split; [reflexivity |].
  unfold getCredential, ensureUnlocked. simpl. rewrite Hkey, Hopen. simpl. split.
  - rewrite find_app_miss by (eapply existsb_or_false, Hfresh).
    simpl. rewrite String.eqb_refl.
    pose proof (decrypt_encrypt value (default [] (buffers self !! ref)) nonce Hcrypto)
      as Hround.
    unfold Crypto.decrypt, Crypto.encrypt in *. simpl in *. now rewrite Hround.
  - intros other Hne. rewrite find_app_other; [reflexivity |].
    simpl. apply String.eqb_neq. congruence.
Qed.

(** X6.  A name that is already in the vault cannot be added again: the
    call throws and the vault stays as it was. *)
Theorem add_existing_name_throws (name : string) (type : CredentialType)
    (value : string) (metadata : list (string * string)) (id now : string)
    (nonce : bytes) (self : t) :
  serving self ->
  existsb (fun r => String.eqb (rec_name r) name) (credentials self) = true ->
  addCredential name type value metadata id now nonce self = (self, Throws SqliteError).
Proof.
  intros [Hopen [ref Hkey]] Hthere. unfold addCredential, ensureUnlocked.
  rewrite Hkey, Hopen. simpl.
  assert (Hhit : existsb (fun r => String.eqb (rec_name r) name || String.eqb (rec_id r) id)
                   (credentials self) = true).
  { apply existsb_exists in Hthere as (r & Hin & Hr). apply existsb_exists.
    exists r. split; [exact Hin | now rewrite Hr]. }
  now rewrite Hhit.
Qed.

Lemma filter_shrinks {A : Type} (f : A -> bool) (l : list A) :
  Nat.ltb (length (List.filter (fun x => negb (f x)) l)) (length l) = existsb f l.
Proof.
  assert (Hle : forall l', (length (List.filter (fun x => negb (f x)) l') <= length l')%nat).
  { induction l' as [|x l' IH]; simpl; [lia |]. destruct (f x); simpl; lia. }
  induction l as [|x l IH]; simpl; [reflexivity |].
  destruct (f x); simpl.
  - specialize (Hle l). apply Nat.ltb_lt. lia.
  - rewrite <- IH. destruct (Nat.ltb_spec (length (List.filter (fun x => negb (f x)) l))
                               (length l));
      [apply Nat.ltb_lt | apply Nat.ltb_ge]; lia.
Qed.

Lemma find_filter_other {A : Type} (f g : A -> bool) (l : list A) :
  (forall x, f x = true -> g x = true) ->
  find f (List.filter g l) = find f l.
Proof.
  intros Hfg. induction l as [|x l IH]; simpl; [reflexivity |].
  destruct (g x) eqn:Eg; simpl.
  - now destruct (f x).
  - destruct (f x) eqn:Ef; [| exact IH]. apply Hfg in Ef. congruence.
Qed.

Lemma find_filter_gone {A : Type} (f : A -> bool) (l : list A) :
  find f (List.filter (fun x => negb (f x)) l) = None.
Proof.
  induction l as [|x l IH]; simpl; [reflexivity |].
  destruct (f x) eqn:Ef; simpl; [exact IH | now rewrite Ef].
Qed.

(** X7.  On an unlocked vault [removeCredential] answers whether the name
    was there; afterwards [getCredential] of that name returns [null], and
    every other name reads as before. *)
Theorem remove_then_get (name : string) (self : t) :
  serving self ->
  let removed := removeCredential name self in
  snd removed
  = Returns (existsb (fun r => String.eqb (rec_name r) name) (credentials self))
  /\ getCredential name (fst removed) = Returns None
  /\ forall other, other <> name ->
       getCredential other (fst removed) = getCredential other self.
Proof.
  intros [Hopen [ref Hkey]]. unfold removeCredential, ensureUnlocked.
  rewrite Hkey, Hopen. simpl. split; [now rewrite filter_shrinks |].
  unfold getCredential, ensureUnlocked. simpl. rewrite Hkey, Hopen. simpl. split.
  - now rewrite find_filter_gone.
  - intros other Hne. rewrite find_filter_other; [reflexivity |].
    intros r Hr. apply String.eqb_eq in Hr. apply negb_true_iff, String.eqb_neq.
    congruence.
Qed.

(** X8.  Writing needs an unlocked vault: on a locked vault [addCredential]
    and [removeCredential] throw the vault-locked error and change
    nothing. *)
Theorem writes_need_unlocked_vault (name : string) (type : CredentialType)
    (value : string) (metadata : list (string * string)) (id now : string)
    (nonce : bytes) (self : t) :
  key self = None ->
  addCredential name type value metadata id now nonce self
  = (self, Throws (Error "Vault is locked. Call initialize() or unlock() first."))
  /\ removeCredential name self
     = (self, Throws (Error "Vault is locked. Call initialize() or unlock() first.")).
Proof.
  intros Hkey. unfold addCredential, removeCredential, ensureUnlocked.
  now rewrite Hkey.
Qed.

(** X9.  [initialize] on a fresh database unlocks the vault with the key
    derived from the passphrase and the salt; a second [initialize], with
    whatever passphrase, throws and changes nothing; [unlock] on a database
    without salt throws as well. *)
Theorem initialize_once (passphrase again : string) (salt salt' : bytes) (self : t) :
  db_open self = true -> Map_get "salt" (wallet_meta self) = None ->
  let opened := fst (initialize passphrase salt self) in
  snd (initialize passphrase salt self) = Returns tt
  /\ serving opened
  /\ key_bytes opened = Some (Crypto.deriveKey passphrase salt)
  /\ Map_get "salt" (wallet_meta opened) = Some (base64_encode salt)
  /\ initialize again salt' opened
     = (opened, Throws (Error "Vault is already initialized. Use unlock() instead."))
  /\ unlock passphrase self
     = (self, Throws (Error "Vault is not initialized. Use initialize() first.")).
Proof.
  intros Hopen Hsalt. unfold initialize, unlock. rewrite Hopen, Hsalt. simpl.
  assert (Hstored : Map_get "salt"
                      (Map_set "version" "1"
                         (Map_set "salt" (base64_encode salt) (wallet_meta self)))
                    = Some (base64_encode salt)).
  { rewrite Map_get_set_ne by discriminate. apply Map_get_set_eq. }
  repeat split; try assumption.
  - eexists. reflexivity.
  - unfold key_bytes. simpl. rewrite lookup_app_r by reflexivity.
    now rewrite Nat.sub_diag.
  - rewrite Hopen. simpl. now rewrite Hstored.
Qed.

(** X10.  What a vault holds survives closing: open the same database
    again, [unlock] it with the passphrase its key was derived from, and
    every name reads as it did before. *)
Theorem reopen_reads_the_same (passphrase : string) (salt : bytes) (self : t)
    (name : string) :
  crypto_round_trips -> db_open self = true ->
  Map_get "salt" (wallet_meta self) = Some (base64_encode salt) ->
  key_bytes self = Some (Crypto.deriveKey passphrase salt) ->
  let reopened := new (wallet_meta (close self)) (credentials (close self)) in
  snd (unlock passphrase reopened) = Returns tt
  /\ getCredential name (fst (unlock passphrase reopened)) = getCredential name self.
Proof.
  intros [_ Hbase] Hopen Hsalt Hkey. unfold unlock. simpl. rewrite Hsalt. simpl.
  split; [reflexivity |].
  unfold key_bytes in Hkey. destruct (key self) as [ref|] eqn:Eref; [| discriminate].
  simpl in Hkey. unfold getCredential, ensureUnlocked. simpl.
  rewrite Eref, Hopen, Hkey, Hbase. reflexivity.
Qed.

(** X11.  [unlock] does not check the passphrase, and listing decrypts
    nothing: after [unlock] with any passphrase at all, [listCredentials]
    returns the id, name, type, metadata and dates of every credential. *)
Theorem any_passphrase_lists (passphrase : string) (self : t) :
  db_open self = true -> is_Some (Map_get "salt" (wallet_meta self)) ->
  snd (unlock passphrase self) = Returns tt
  /\ listCredentials (fst (unlock passphrase self))
     = Returns (map (fun row =>
                       {| sum_id := rec_id row; sum_name := rec_name row;
                          sum_type := rec_type row; sum_metadata := rec_metadata row;
                          sum_created_at := rec_created_at row;
                          sum_updated_at := rec_updated_at row |})
                  (credentials self)).
Proof.
  intros Hopen [value Hsalt]. unfold unlock. rewrite Hopen, Hsalt. simpl.
  split; [reflexivity |]. unfold listCredentials, ensureUnlocked. simpl.
  now rewrite Hopen.
Qed.

(** X12.  Names stay unique: neither [addCredential] nor [removeCredential]
    can leave two credentials of one name in the vault. *)
Theorem names_stay_unique (name : string) (type : CredentialType) (value : string)
    (metadata : list (string * string)) (id now : string) (nonce : bytes)
    (self : t) :
  List.NoDup (map rec_name (credentials self)) ->
  List.NoDup (map rec_name
                (credentials (fst (addCredential name type value metadata id now nonce self))))
  /\ List.NoDup (map rec_name (credentials (fst (removeCredential name self)))).
Proof.
  intros Hnd. split.
  - unfold addCredential. destruct (ensureUnlocked self); [| exact Hnd].
    destruct (db_open self); simpl; [| exact Hnd].
    destruct (existsb _ (credentials self)) eqn:Efresh; simpl; [exact Hnd |].
    rewrite map_app. simpl. apply NoDup_ListNoDup, NoDup_app.
    apply NoDup_ListNoDup in Hnd. repeat split; [exact Hnd | | apply NoDup_singleton].
    intros x Hx ->%list_elem_of_singleton.
    apply list_elem_of_In, in_map_iff in Hx as (r & Hr & Hin).
    apply existsb_or_false in Efresh.
    assert (Hhit : existsb (fun r => String.eqb (rec_name r) name) (credentials self) = true).
    { apply existsb_exists. exists r. split; [exact Hin | now apply String.eqb_eq]. }
    congruence.
  - unfold removeCredential. destruct (ensureUnlocked self); [| exact Hnd].
    destruct (db_open self); simpl; [| exact Hnd].
    induction (credentials self) as [|r rows IH]; simpl; [constructor |].
    inversion Hnd as [|? ? Hnot Hrest]; subst.
    destruct (negb (String.eqb (rec_name r) name)); simpl; [| now apply IH].
    constructor; [| now apply IH]. intros Hin. apply Hnot.
    apply in_map_iff in Hin as (r' & Hr' & Hin'). apply List.filter_In in Hin' as [Hin' _].
    apply in_map_iff. eauto.
Qed.
End VaultMore.

(** ** The audit log: numbering, [query], and what counts as spending *)

Lemma AuditEvent_eqb_eq (a b : AuditEvent) : AuditEvent_eqb a b = true <-> a = b.
Proof. destruct a, b; simpl; split; intros; congruence. Qed.

Lemma seq_sorted (a n : nat) : StronglySorted Z.lt (map Z.of_nat (seq a n)).
Proof.
  revert a. induction n as [|n IH]; intros a; simpl; constructor; [apply IH |].
  apply List.Forall_forall. intros z (k & <- & Hk%in_seq)%in_map_iff. lia.
Qed.

Section SortedProofs.
Context {A : Type}.
Implicit Types (R : A -> A -> Prop).

Lemma sorted_filter R (f : A -> bool) (l : list A) :
  StronglySorted R l -> StronglySorted R (List.filter f l).
Proof.
  induction 1 as [|x l Hl IH Hx]; simpl; [constructor |].
  destruct (f x); [| exact IH]. constructor; [exact IH |].
  apply List.Forall_forall. intros y [Hy _]%List.filter_In.
  rewrite List.Forall_forall in Hx. auto.
Qed.

Lemma sorted_snoc R (l : list A) (x : A) :
  StronglySorted R l -> List.Forall (fun y => R y x) l -> StronglySorted R (l ++ [x]).
Proof.
  induction 1 as [|y l Hl IH Hy]; simpl; intros Hx.
  - repeat constructor.
  - inversion Hx as [|? ? Hyx Hlx]; subst. constructor; [now apply IH |].
    apply List.Forall_app. split; [exact Hy | now constructor].
Qed.

Lemma sorted_rev R (l : list A) :
  StronglySorted R l -> StronglySorted (fun a b => R b a) (rev l).
Proof.
  induction 1 as [|x l Hl IH Hx]; simpl; [constructor |].
  apply sorted_snoc; [exact IH |].
  apply List.Forall_forall. intros y Hy%in_rev.
  rewrite List.Forall_forall in Hx. auto.
Qed.

Lemma sorted_take R (n : nat) (l : list A) :
  StronglySorted R l -> StronglySorted R (take n l).
Proof.
  intros Hl. revert n. induction Hl as [|x l Hl IH Hx]; intros [|n]; simpl;
    try constructor; [apply IH |].
  apply List.Forall_forall. intros y Hy.
  rewrite List.Forall_forall in Hx. apply Hx.
  apply list_elem_of_In. apply list_elem_of_In in Hy.
  eapply subseteq_take, Hy.
Qed.

Lemma sorted_map R {B : Type} (f : B -> A) (l : list B) :
  StronglySorted (fun a b => R (f a) (f b)) l <-> StronglySorted R (map f l).
Proof.
  induction l as [|x l IH]; simpl.
  - split; constructor.
  - split; inversion 1 as [|? ? Hl Hx]; subst; constructor; try (now apply IH);
      rewrite List.Forall_forall in *.
    + intros y (b & <- & Hb)%in_map_iff. now apply Hx.
    + intros b Hb. apply Hx. now apply in_map.
Qed.
End SortedProofs.

Section AuditMore.
Context {num : Type} `{JsNumber num} `{JsonRuntime num}.
Import AuditLogger AuditQuerying.

(** X13.  [log] numbers the entries 1, 2, 3, ...: on a table numbered so,
    the id it returns is one more than the number of rows, larger than
    every id before; the rows before stay as they are and the new row, with
    the entry's event, credential and details, comes last. *)
Theorem log_appends_with_next_id (entry : AuditEntry num) (now : string)
    (self : list AuditRow) :
  well_numbered self ->
  let logged := log entry now self in
  snd logged = Z.of_nat (length self) + 1
  /\ List.Forall (fun row => row_id row < snd logged) self
  /\ well_numbered (fst logged)
  /\ exists row,
       fst logged = (self ++ [row])%list
       /\ row_id row = snd logged
       /\ row_event row = aud_event entry
       /\ row_credential_name row = aud_credential_name entry
       /\ row_details row = aud_details entry.
Proof.
  intros Hnum. unfold log. simpl. split; [reflexivity |]. split; [| split].
  - pose proof (seq_sorted 1 (length self)) as Hsorted. rewrite <- Hnum in Hsorted.
    apply List.Forall_forall. intros row Hin.
    assert (Hid : In (row_id row) (map row_id self)) by now apply in_map.
    rewrite Hnum in Hid. apply in_map_iff in Hid as (k & <- & Hk%in_seq). lia.
  - unfold well_numbered. rewrite map_app, length_app, Hnum. simpl.
    rewrite Nat.add_1_r, seq_S, map_app. simpl. f_equal. f_equal. lia.
  - eexists. repeat split.
Qed.

Lemma to_entry_fields (row : AuditRow) (e : QueriedEntry num) :
  to_entry row = Some e ->
  out_id e = row_id row /\ out_event e = row_event row
  /\ out_timestamp e = row_timestamp row /\ out_agent_id e = row_agent_id row
  /\ out_policy e = row_policy row /\ out_details e = row_details row.
Proof.
  unfold to_entry. destruct (parse_column (row_scope row)); simpl; [| discriminate].
  destruct (parse_column (row_context row)); simpl; [| discriminate].
  intros [= <-]. repeat split.
Qed.

Lemma limited_sub (limit : option Z) (rows : list AuditRow) (row : AuditRow) :
  In row (limited limit rows) -> In row rows.
Proof.
  unfold limited. destruct limit as [n|]; [| auto].
  destruct (n <=? 0)%Z; [auto |]. intros Hin. apply list_elem_of_In.
  apply list_elem_of_In in Hin. eapply subseteq_take, Hin.
Qed.


Lemma sum_rows_app (rows : list (option string)) (details : option string)
    (total : num) :
  sum_rows (rows ++ [details]) total = add_row (sum_rows rows total) details.
Proof.
  revert total. induction rows as [|d rows IH]; intros total; simpl; [reflexivity |].
  apply IH.
Qed.

Lemma log_other_event (entry : AuditEntry num) (now : string)
    (self : list AuditRow) (c : string) (month : option string) (today : string) :
  aud_event entry <> credential_used ->
  getMonthlySpending (fst (log entry now self)) c month today
  = getMonthlySpending self c month today.
Proof.
  intros Hev. unfold getMonthlySpending, log. simpl.
  rewrite List.filter_app. simpl.
  assert (Hskip : forall pattern row,
             row_event row = aud_event entry -> spending_where c pattern row = false).
  { intros pattern row Hrow. unfold spending_where.
    destruct (AuditEvent_eqb (row_event row) credential_used) eqn:E; [| reflexivity].
    apply AuditEvent_eqb_eq in E. congruence. }
  rewrite Hskip by reflexivity. now rewrite app_nil_r.
Qed.

(** X15.  Only [credential_used] entries are spending: logging an entry of
    any other event leaves [getMonthlySpending] as it was, for every
    credential and month. *)
Theorem other_events_cost_nothing (entry : AuditEntry num) (now : string)
    (self : list AuditRow) (c : string) (month : option string) (today : string) :
  aud_event entry <> credential_used ->
  getMonthlySpending (fst (log entry now self)) c month today
  = getMonthlySpending self c month today.
Proof. apply log_other_event. Qed.

Lemma log_usage (entry : AuditEntry num) (now : string)
    (self : list AuditRow) (c m details today : string) (parsed : json num)
    (amount : num) :
  month_prefix m ->
  aud_event entry = credential_used ->
  aud_credential_name entry = Some c ->
  String.prefix m (if str_truthy (aud_timestamp entry)
                   then aud_timestamp entry else now) = true ->
  aud_details entry = Some details ->
  JSON_parse details = Some parsed ->
  amount_of parsed = Some amount ->
  getMonthlySpending (fst (log entry now self)) c (Some m) today
  = num_add (getMonthlySpending self c (Some m) today) amount.
Proof.
  intros [Hne Hm] Hev Hc Hts Hd Hparse Hamount.
  unfold getMonthlySpending, log. simpl.
  apply str_truthy_ne in Hne. rewrite Hne.
  rewrite List.filter_app. simpl.
  unfold spending_where at 2. simpl.
  rewrite Hev, Hc, String.eqb_refl, sql_like_prefix, Hts by exact Hm. simpl.
  rewrite map_app. cbn [map]. rewrite sum_rows_app. simpl. rewrite Hd. unfold add_row.
  destruct details as [|a d]; [now rewrite JSON_parse_empty in Hparse |].
  simpl. now rewrite Hparse, Hamount.
Qed.

(** X16.  A [credential_used] entry for credential [c], stamped in month
    [m], whose details parse to an object with a numeric [amount], raises
    the spending of [c] in [m] by that amount. *)
Theorem usage_entry_adds_its_amount (entry : AuditEntry num) (now : string)
    (self : list AuditRow) (c m details today : string) (parsed : json num)
    (amount : num) :
  month_prefix m ->
  aud_event entry = credential_used ->
  aud_credential_name entry = Some c ->
  String.prefix m (if str_truthy (aud_timestamp entry)
                   then aud_timestamp entry else now) = true ->
  aud_details entry = Some details ->
  JSON_parse details = Some parsed ->
  amount_of parsed = Some amount ->
  getMonthlySpending (fst (log entry now self)) c (Some m) today
  = num_add (getMonthlySpending self c (Some m) today) amount.
Proof. apply log_usage. Qed.
End AuditMore.

(** ** The engine and the loader together *)

Section EngineMore.
Context {num : Type} `{JsNumber num} `{CelRuntime num}.
Import PolicyEngine EngineSpec.

Lemma evaluate_allow_iff (policy : Policy num) (request : CredentialRequest num)
    (monthlySpending : option num) :
  decision (evaluate policy request monthlySpending) = allow
  <-> forall c, ~ fails c policy request monthlySpending.
Proof.
  unfold evaluate.
  destruct (evaluate_scope policy request) as [r1|] eqn:Escope.
  { destruct (evaluate_scope_fails policy request monthlySpending r1 Escope)
      as (c & [Hc _] & _ & Hd & _).
    split; [congruence | intros Hno; now apply Hno in Hc]. }
  destruct (evaluate_amount policy request monthlySpending) as [r2|] eqn:Eamount.
  { destruct (evaluate_amount_fails policy request monthlySpending r2 Escope Eamount)
      as (c & [Hc _] & _ & Hd & _).
    split; [destruct c; simpl in Hd; congruence | intros Hno; now apply Hno in Hc]. }
  apply evaluate_scope_passes with (monthlySpending := monthlySpending) in Escope
    as (N1 & N2 & N3 & N4).
  apply evaluate_amount_passes in Eamount as (N5 & N6 & N7).
  destruct (evaluate_condition policy request) as [r3|] eqn:Econd.
  { destruct (evaluate_condition_fails policy request monthlySpending r3 Econd)
      as (Hd & _ & _ & Hc).
    split; [congruence | intros Hno; now apply Hno in Hc]. }
  apply (evaluate_condition_passes policy request monthlySpending) in Econd.
  split; [| reflexivity]. intros _ c. destruct c; assumption.
Qed.

Lemma evaluate_approval (policy : Policy num) (request : CredentialRequest num)
    (monthlySpending : option num) :
  decision (evaluate policy request monthlySpending) = require_approval ->
  first_failing ApprovalThreshold policy request monthlySpending.
Proof.
  unfold evaluate.
  destruct (evaluate_scope policy request) as [r1|] eqn:Escope.
  { destruct (evaluate_scope_fails policy request monthlySpending r1 Escope)
      as (c & _ & _ & Hd & _). congruence. }
  destruct (evaluate_amount policy request monthlySpending) as [r2|] eqn:Eamount.
  { destruct (evaluate_amount_fails policy request monthlySpending r2 Escope Eamount)
      as (c & Hc & _ & Hd & _).
    intros Happ. rewrite Happ in Hd. destruct c; try discriminate Hd. exact Hc. }
  destruct (evaluate_condition policy request) as [r3|] eqn:Econd; [| discriminate].
  destruct (evaluate_condition_fails policy request monthlySpending r3 Econd)
    as (Hd & _). congruence.
Qed.

Lemma filter_In_stdpp (P : Policy num -> Prop) `{forall x, Decision (P x)}
    (l : list (Policy num)) (x : Policy num) :
  In x (filter P l) <-> In x l /\ P x.
Proof. rewrite <- !list_elem_of_In, list_elem_of_filter. tauto. Qed.

(** X17.  What a decision of [evaluateFirst] stands for.  [allow]: one of
    the policies for the credential passes every check, and the result is
    its result.  [require_approval]: for one of them the approval threshold
    is the first check to fail.  [deny]: every policy for the credential
    denies (or there is none). *)
Theorem evaluateFirst_decision_is_backed (policies : list (Policy num))
    (request : CredentialRequest num) (monthlySpending : option num) :
  let result := evaluateFirst policies request monthlySpending in
  match decision result with
  | allow =>
      exists policy,
        In policy policies
        /\ pol_credential policy = req_credential_name request
        /\ result = evaluate policy request monthlySpending
        /\ forall c, ~ fails c policy request monthlySpending
  | require_approval =>
      exists policy,
        In policy policies
        /\ pol_credential policy = req_credential_name request
        /\ result = evaluate policy request monthlySpending
        /\ first_failing ApprovalThreshold policy request monthlySpending
  | deny =>
      List.Forall
        (fun policy => decision (evaluate policy request monthlySpending) = deny)
        (filter (fun p => pol_credential p = req_credential_name request) policies)
  end.
Proof.
  intros result. subst result. unfold evaluateFirst.
  set (matching := filter (fun p => pol_credential p = req_credential_name request)
                     policies).
  assert (Hsub : forall p, In p matching ->
                   In p policies /\ pol_credential p = req_credential_name request)
    by (intros p; apply filter_In_stdpp).
  destruct (last matching) as [final|] eqn:Elast.
  - destruct (evaluateFirst_loop matching request monthlySpending) as [r|] eqn:Eloop.
    + apply evaluateFirst_loop_found in Eloop
        as (earlier & policy & later & Hm & _ & Hnot & ->).
      assert (Hin : In policy matching) by (rewrite Hm; apply in_elt).
      destruct (Hsub _ Hin) as [Hp Hc].
      destruct (decision (evaluate policy request monthlySpending)) eqn:Ed.
      * exists policy. repeat split; auto. now apply evaluate_allow_iff.
      * congruence.
      * exists policy. repeat split; auto; now apply evaluate_approval.
    + apply evaluateFirst_loop_all_deny in Eloop.
      assert (Hfinal : In final matching).
      { apply last_Some in Elast as [l' ->]. apply in_elt. }
      rewrite Forall_forall in Eloop.
      rewrite (Eloop final) by now apply list_elem_of_In.
      apply List.Forall_forall. intros p Hp. now apply Eloop, list_elem_of_In.
  - simpl. apply last_None in Elast. rewrite Elast. constructor.
Qed.

(** X18.  A request without an amount is not measured against any budget:
    the monthly spending does not change its result, and it is never sent
    for approval. *)
Theorem no_amount_no_budget (policy : Policy num) (request : CredentialRequest num)
    (spent spent' : option num) :
  req_amount request = None ->
  evaluate policy request spent = evaluate policy request spent'
  /\ decision (evaluate policy request spent) <> require_approval.
Proof.
  intros Hnone.
  assert (Hskip : forall s, evaluate_amount policy request s = None).
  { intros s. unfold evaluate_amount. rewrite Hnone.
    destruct (pol_budget policy ≫= max_per_transaction);
    destruct (pol_budget policy ≫= max_per_month);
    destruct (pol_approval_threshold policy); reflexivity. }
  unfold evaluate. rewrite !Hskip. split; [reflexivity |].
  destruct (evaluate_scope policy request) as [r1|] eqn:Escope.
  { destruct (evaluate_scope_fails policy request spent r1 Escope)
      as (c & _ & _ & Hd & _). congruence. }
  destruct (evaluate_condition policy request) as [r3|] eqn:Econd; [| discriminate].
  destruct (evaluate_condition_fails policy request spent r3 Econd) as (Hd & _).
  congruence.
Qed.

(** X19.  The loader's filter asks what the first three checks of the
    engine ask: a policy passes it for an agent and a skill exactly when
    the deny list, the agent scope and the skill scope let a request of
    that agent and skill through; a policy it drops is one [evaluate]
    would deny. *)
Theorem filter_agrees_with_engine (policy : Policy num)
    (request : CredentialRequest num) (monthlySpending : option num) :
  (PolicyLoader.grants (req_agent_id request) (req_skill_id request) policy = true
   <-> ~ fails ExplicitDeny policy request monthlySpending
       /\ ~ fails GrantAgent policy request monthlySpending
       /\ ~ fails GrantSkill policy request monthlySpending)
  /\ (PolicyLoader.grants (req_agent_id request) (req_skill_id request) policy = true
      \/ decision (evaluate policy request monthlySpending) = deny).
Proof.
  assert (Hiff : PolicyLoader.grants (req_agent_id request) (req_skill_id request) policy
                 = true
                 <-> ~ fails ExplicitDeny policy request monthlySpending
                     /\ ~ fails GrantAgent policy request monthlySpending
                     /\ ~ fails GrantSkill policy request monthlySpending).
  { rewrite <- explicit_deny_reflect, <- grant_agent_reflect, <- grant_skill_reflect.
    unfold PolicyLoader.grants.
    repeat match goal with
           | |- context [if ?b then _ else _] => destruct b
           end;
      split; try discriminate; try tauto; intuition congruence. }
  split; [exact Hiff |].
  destruct (PolicyLoader.grants _ _ policy) eqn:Egrants; [now left | right].
  unfold evaluate.
  destruct (evaluate_scope policy request) as [r1|] eqn:Escope.
  - destruct (evaluate_scope_fails policy request monthlySpending r1 Escope)
      as (c & _ & _ & Hd & _). exact Hd.
  - apply evaluate_scope_passes with (monthlySpending := monthlySpending) in Escope
      as (N1 & N2 & N3 & _).
    assert (Htrue : false = true) by (apply Hiff; auto). discriminate.
Qed.

Lemma obj_spread_get {V : Type} (base extra : list (string * V)) (k : string) :
  List.NoDup (map fst extra) ->
  Map_get k (obj_spread base extra)
  = match Map_get k extra with
    | Some v => Some v
    | None => Map_get k base
    end.
Proof.
  unfold obj_spread. revert base.
  induction extra as [|[k1 v1] extra IH]; intros base Hnd; simpl; [reflexivity |].
  inversion Hnd as [|? ? Hnot Hrest]; subst. rewrite IH by exact Hrest.
  destruct (String.eqb_spec k1 k) as [-> | Hne].
  - assert (Hmiss : Map_get k extra = None).
    { clear -Hnot. induction extra as [|[k2 v2] extra IH]; simpl; [reflexivity |].
      simpl in Hnot. destruct (String.eqb_spec k2 k) as [-> | _]; [tauto |].
      apply IH. tauto. }
    rewrite Hmiss. apply Map_get_set_eq.
  - destruct (Map_get k extra); [reflexivity |]. now apply Map_get_set_ne.
Qed.

(** X20.  In the context a condition is evaluated in, a key of
    [request.context] takes the place of the request's own field of that
    name ([agent_id], [amount], ...); a field the context does not name
    keeps the request's value. *)
Theorem context_overrides_request_fields (request : CredentialRequest num)
    (context : list (string * json num)) (k : string) :
  req_context request = Some context -> List.NoDup (map fst context) ->
  Map_get k (celContext request)
  = match Map_get k context with
    | Some v => Some v
    | None => Map_get k (builtin_fields request)
    end.
Proof.
  intros Hctx Hnd. unfold celContext. rewrite Hctx. simpl default.
  now apply obj_spread_get.
Qed.
End EngineMore.

(** ** What loading makes sure of *)

Section LoaderMore.
Context {num : Type} `{JsNumber num}.
Import PolicyLoader.
Implicit Types (m : list (string * Policy num)) (p : Policy num).

Ltac bind_inv H :=
  repeat match type of H with
         | mbind _ ?e = Some _ =>
             let E := fresh "E" in destruct e eqn:E; simpl in H; [| discriminate H]
         | (match ?e with Some _ => _ | None => _ end) = Some _ =>
             let E := fresh "E" in destruct e eqn:E; simpl in H; [| discriminate H]
         end.

Lemma number_positive_gt (v : json num) (n : num) :
  Zod.number_positive v = Some n -> num_gt n num_zero = true.
Proof.
  unfold Zod.number_positive. destruct v; try discriminate.
  destruct (num_gt n0 num_zero) eqn:E; [| discriminate]. now intros [= <-].
Qed.

Lemma optional_positive (o : option (json num)) (r : option num) (n : num) :
  Zod.optional Zod.number_positive o = Some r -> r = Some n ->
  num_gt n num_zero = true.
Proof.
  unfold Zod.optional. destruct o as [v|]; [| now intros [= <-]].
  destruct (Zod.number_positive v) as [n'|] eqn:E; simpl; [| discriminate].
  intros [= <-] [= <-]. eapply number_positive_gt, E.
Qed.

Lemma string_min1_ne (v : json num) (s : string) :
  Zod.string_min1 v = Some s -> s <> EmptyString.
Proof.
  unfold Zod.string_min1. destruct (Zod.string_ v) as [s'|]; simpl; [| discriminate].
  destruct (str_truthy s') eqn:E; [| discriminate].
  intros [= <-]. now apply str_truthy_ne.
Qed.

Lemma PolicySchema_validated (v : json num) p :
  Zod.PolicySchema v = Some p -> validated_policy p.
Proof.
  unfold Zod.PolicySchema. destruct v as [| | | | |o]; try discriminate.
  intros Hp. unfold Zod.required in Hp. bind_inv Hp.
  injection Hp as <-. unfold validated_policy. simpl.
  repeat match goal with
         | E : mbind _ ?e = Some _ |- _ =>
             let E' := fresh "E" in destruct e eqn:E'; simpl in E; [| discriminate E]
         end.
  split; [eapply string_min1_ne; eassumption |].
  split; [eapply string_min1_ne; eassumption |].
  split; [intros n Hn; eapply optional_positive; [| exact Hn]; eassumption |].
  split.
  - intros b n Hb Hlimit. subst.
    match goal with
    | E : Zod.optional Zod.PolicyBudgetSchema _ = Some (Some b) |- _ =>
        unfold Zod.optional in E;
        destruct (Map_get "budget" o) as [vb|]; [| discriminate E];
        destruct (Zod.PolicyBudgetSchema vb) as [b'|] eqn:Eb; simpl in E;
        [| discriminate E]; injection E as ->
    end.
    unfold Zod.PolicyBudgetSchema in Eb. destruct vb as [| | | | |ob]; try discriminate.
    bind_inv Eb. injection Eb as <-. simpl in Hlimit.
    destruct Hlimit as [Hl | Hl];
      (eapply optional_positive; [| exact Hl]; eassumption).
  - intros t Ht. subst.
    match goal with
    | E : Zod.optional Zod.number_int_positive _ = Some (Some t) |- _ =>
        unfold Zod.optional in E;
        destruct (Map_get "ttl" o) as [vt|]; [| discriminate E];
        destruct (Zod.number_int_positive vt) as [t'|] eqn:Et; simpl in E;
        [| discriminate E]; injection E as ->
    end.
    unfold Zod.number_int_positive in Et.
    destruct (Zod.number_positive vt) as [n|] eqn:En; simpl in Et; [| discriminate].
    destruct (num_as_int n) as [z|] eqn:Ez; simpl in Et; [| discriminate].
    injection Et as <-. exists n. split; [exact Ez |]. eapply number_positive_gt, En.
Qed.

Lemma fold_In (ps : list (Policy num)) m (kv : string * Policy num) :
  In kv (fold_left set_policy ps m) -> In kv m \/ In (snd kv) ps.
Proof.
  revert m. induction ps as [|p ps IH]; intros m; simpl; [auto |].
  intros Hin. apply IH in Hin as [Hin | Hin]; [| auto].
  apply Map_set_In in Hin as [-> | Hin]; auto.
Qed.

(** X21.  Every policy a loaded document leaves in the loader has passed
    the schema: its name and its credential are not empty, its limits and
    its approval threshold are greater than zero, and its TTL is an integer
    greater than zero. *)
Theorem loaded_policies_are_validated (data : json num)
    (loader : list (string * Policy num)) :
  loadFromObject data = Some loader ->
  List.Forall validated_policy (listPolicies loader).
Proof.
  unfold loadFromObject, Zod.PolicyFileSchema. intros Hload.
  destruct data as [| | | | |o]; try discriminate. unfold Zod.required in Hload.
  simpl in Hload.
  destruct (Map_get "version" o ≫= Zod.string_) as [ver|]; simpl in Hload;
    [| discriminate].
  destruct (Map_get "policies" o) as [vp|]; simpl in Hload; [| discriminate].
  destruct (Zod.array Zod.PolicySchema vp) as [ps|] eqn:Eps; simpl in Hload;
    [| discriminate].
  injection Hload as <-.
  unfold Zod.array in Eps. destruct vp as [| | | |l|]; try discriminate.
  apply mapM_Some in Eps.
  apply List.Forall_forall. intros p Hp.
  unfold listPolicies, Map_values in Hp. apply in_map_iff in Hp as (kv & <- & Hkv).
  apply fold_In in Hkv as [[] | Hin].
  apply list_elem_of_In, list_elem_of_lookup in Hin as [i Hi].
  destruct (Forall2_lookup_r _ _ _ _ _ Eps Hi) as (v & _ & Hv).
  eapply PolicySchema_validated, Hv.
Qed.

Lemma Map_set_fresh {V : Type} (k : string) (v : V) (l : list (string * V)) :
  ~ In k (map fst l) -> Map_set k v l = (l ++ [(k, v)])%list.
Proof.
  induction l as [|[k' v'] l IH]; simpl; [reflexivity |].
  intros Hnot. destruct (String.eqb_spec k' k) as [-> | _]; [tauto |].
  rewrite IH; [reflexivity | tauto].
Qed.

Lemma fold_distinct (ps : list (Policy num)) m :
  List.NoDup (map fst m ++ map pol_name ps) ->
  fold_left set_policy ps m = (m ++ map (fun p => (pol_name p, p)) ps)%list.
Proof.
  revert m. induction ps as [|p ps IH]; intros m Hnd; simpl.
  - now rewrite app_nil_r.
  - assert (Hfresh : ~ In (pol_name p) (map fst m)).
    { intros Hin. apply NoDup_remove_2 in Hnd. apply Hnd, in_or_app. now left. }
    unfold set_policy at 2. rewrite Map_set_fresh by exact Hfresh.
    rewrite IH.
    + now rewrite <- app_assoc.
    + rewrite map_app. simpl. rewrite <- app_assoc. exact Hnd.
Qed.

(** X22.  The order of the document is kept: when the names of the
    policies differ from one another, [listPolicies] returns them as the
    document lists them, and [getPolicy] finds each under its name. *)
Theorem distinct_names_keep_order (policies : list (Policy num)) :
  List.NoDup (map pol_name policies) ->
  listPolicies (set_all policies) = policies
  /\ List.Forall (fun p => getPolicy (set_all policies) (pol_name p) = Some p) policies.
Proof.
  intros Hnd. unfold set_all. rewrite fold_distinct by exact Hnd. simpl. split.
  - unfold listPolicies, Map_values. rewrite map_map. simpl. apply map_id.
  - apply List.Forall_forall. intros p Hp. unfold getPolicy.
    apply Map_get_In; [now rewrite map_map |].
    apply in_map_iff. eauto.
Qed.
End LoaderMore.

(** ** The request pipeline and the usage report *)

Section PipelineMore.
Context {num : Type} `{JsNumber num} `{CelRuntime num} `{JsonRuntime num}
        `{NodeCrypto}.
Import RequestCredential.

Lemma evaluate_allow_result (policy : Policy num) (request : CredentialRequest num)
    (monthlySpending : option num) :
  decision (PolicyEngine.evaluate policy request monthlySpending) = allow ->
  PolicyEngine.evaluate policy request monthlySpending
  = {| decision := allow; reason := "All policy checks passed.";
       res_scope := pol_scope policy; res_policy_name := Some (pol_name policy) |}.
Proof.
  unfold PolicyEngine.evaluate.
  destruct (PolicyEngine.evaluate_scope policy request) as [r1|] eqn:Escope.
  { destruct (evaluate_scope_fails policy request monthlySpending r1 Escope)
      as (c & _ & _ & Hd & _). congruence. }
  destruct (PolicyEngine.evaluate_amount policy request monthlySpending)
    as [r2|] eqn:Eamount.
  { destruct (evaluate_amount_fails policy request monthlySpending r2 Escope Eamount)
      as (c & _ & _ & Hd & _). destruct c; simpl in Hd; congruence. }
  destruct (PolicyEngine.evaluate_condition policy request) as [r3|] eqn:Econd;
    [| reflexivity].
  destruct (evaluate_condition_fails policy request monthlySpending r3 Econd)
    as (Hd & _). congruence.
Qed.

Lemma evaluateFirst_allow_inv (policies : list (Policy num))
    (request : CredentialRequest num) (monthlySpending : option num) :
  decision (PolicyEngine.evaluateFirst policies request monthlySpending) = allow ->
  exists policy,
    In policy policies
    /\ pol_credential policy = req_credential_name request
    /\ PolicyEngine.evaluateFirst policies request monthlySpending
       = PolicyEngine.evaluate policy request monthlySpending
    /\ decision (PolicyEngine.evaluate policy request monthlySpending) = allow.
Proof.
  unfold PolicyEngine.evaluateFirst.
  set (matching := filter (fun p => pol_credential p = req_credential_name request)
                     policies).
  assert (Hsub : forall p, In p matching ->
                   In p policies /\ pol_credential p = req_credential_name request)
    by (intros p Hp; subst matching; apply filter_In_stdpp in Hp; exact Hp).
  destruct (last matching) as [final|] eqn:Elast; [| discriminate].
  destruct (PolicyEngine.evaluateFirst_loop matching request monthlySpending)
    as [r|] eqn:Eloop.
  - apply evaluateFirst_loop_found in Eloop
      as (earlier & policy & later & Hm & _ & _ & ->).
    intros Hallow. exists policy.
    assert (Hin : In policy matching) by (rewrite Hm; apply in_elt).
    destruct (Hsub _ Hin). auto.
  - intros Hallow. exists final.
    assert (Hin : In final matching).
    { apply last_Some in Elast as [l' ->]. apply in_elt. }
    destruct (Hsub _ Hin). auto.
Qed.

Lemma loaded_getPolicy (policies : list (Policy num)) (policy : Policy num) :
  In policy (PolicyLoader.listPolicies (PolicyLoader.set_all policies)) ->
  PolicyLoader.getPolicy (PolicyLoader.set_all policies) (pol_name policy)
  = Some policy.
Proof.
  intros Hin. destruct (fold_keyed policies []) as [Hk Hnd];
    [constructor | constructor |].
  unfold PolicyLoader.listPolicies, Map_values in Hin.
  apply in_map_iff in Hin as ([k q] & <- & Hin).
  unfold keyed in Hk. rewrite List.Forall_forall in Hk.
  specialize (Hk _ Hin). simpl in Hk. subst k.
  now apply Map_get_In.
Qed.

(** X23.  [request_credential] never writes to the vault or to the loaded
    policies, and it touches the token store only to issue a token: on a
    [granted] reply, and when the callback throws a [RangeError] because
    the expiry of the token it has just issued cannot be printed as a
    date.  On every other reply, and when the vault throws, the token
    store is as before. *)
Theorem request_writes_only_audit_and_token (params : CredentialRequest num)
    (env : Readings) (deps : Deps) :
  let out := request_credential params env deps in
  vault (fst out) = vault deps
  /\ policyLoader (fst out) = policyLoader deps
  /\ match snd out with
     | Returns (granted _ _ _ _) | Throws (RangeError _) =>
         exists token,
           tokenStore (fst out) = <[uuid env := token]> (tokenStore deps)
           /\ Date_in_range (expires_at token)
              = match snd out with Returns _ => true | Throws _ => false end
     | _ => tokenStore (fst out) = tokenStore deps
     end.
Proof.
  intros out. subst out. unfold request_credential.
  match goal with
  | |- context [match decision ?r with _ => _ end] => destruct (decision r)
  end; [| repeat split ..].
  match goal with
  | |- context [match Vault.getCredential ?n ?v with _ => _ end] =>
      destruct (Vault.getCredential n v) as [[credential|]|e] eqn:Evault
  end.
  - cbv zeta.
    match goal with
    | |- context [if Date_in_range ?t then _ else _] =>
        destruct (Date_in_range t) eqn:Edate
    end; simpl; repeat split; eexists; (split; [reflexivity | exact Edate]).
  - simpl. repeat split.
  - apply getCredential_throws in Evault.
    simpl. destruct e; try contradiction; repeat split.
Qed.

(** X24.  Asking for a credential spends nothing: whatever the reply,
    [getMonthlySpending] is the same after [request_credential] as before,
    for every credential and month. *)
Theorem request_spends_nothing (params : CredentialRequest num) (env : Readings)
    (deps : Deps) (c : string) (month : option string) (today : string) :
  AuditLogger.getMonthlySpending
    (auditLogger (fst (request_credential params env deps))) c month today
  = AuditLogger.getMonthlySpending (auditLogger deps) c month today.
Proof.
  unfold request_credential.
  match goal with
  | |- context [match decision ?r with _ => _ end] => destruct (decision r)
  end;
    [ match goal with
      | |- context [match Vault.getCredential ?n ?v with _ => _ end] =>
          destruct (Vault.getCredential n v) as [[credential|]|e]
      end | | ];
    cbv zeta;
    try match goal with
        | |- context [if Date_in_range ?t then _ else _] => destruct (Date_in_range t)
        end;
    cbn [fst snd auditLogger with_audit with_tokens];
    repeat rewrite log_other_event by (simpl; discriminate); reflexivity.
Qed.

(** X25.  Behind every [granted] reply stand a policy and a credential: a
    loaded policy for that credential which passes the loader's filter and
    every check of the engine, against the spending recorded so far, and
    the credential of that name in the vault.  The reply carries the
    credential's value, the id drawn for the token, the policy's scope, and
    an expiry of the policy's TTL (300 seconds without one) after the
    issue; the token sits in the store under that id. *)
Theorem granted_is_backed (params : CredentialRequest num) (env : Readings)
    (deps : Deps) (policies : list (Policy num))
    (id value : string) (expiry : Z) (scope : list (string * json num)) :
  policyLoader deps = PolicyLoader.set_all policies ->
  snd (request_credential params env deps) = Returns (granted id value expiry scope) ->
  exists policy credential token,
    In policy (PolicyLoader.listPoliciesForAgent (policyLoader deps)
                 (req_agent_id params) (req_skill_id params))
    /\ pol_credential policy = req_credential_name params
    /\ (forall c,
          ~ EngineSpec.fails c policy (without_context params)
              (Some (AuditLogger.getMonthlySpending (auditLogger deps)
                       (req_credential_name params) None (at_spending env))))
    /\ Vault.getCredential (req_credential_name params) (vault deps)
       = Returns (Some credential)
    /\ value = cred_value credential
    /\ id = uuid env
    /\ scope = default [] (pol_scope policy)
    /\ expiry = at_issue env + default 300 (pol_ttl policy) * 1000
    /\ tokenStore (fst (request_credential params env deps)) !! id = Some token
    /\ credential_value token = value
    /\ tok_policy_name token = pol_name policy
    /\ tok_agent_id token = req_agent_id params
    /\ expires_at token = expiry
    /\ used token = false.
Proof.
  intros Hloaded. unfold request_credential.
  fold (without_context params).
  set (spent := AuditLogger.getMonthlySpending _ _ None (at_spending env)).
  assert (Hspent : spent = AuditLogger.getMonthlySpending (auditLogger deps)
                             (req_credential_name params) None (at_spending env)).
  { subst spent. cbn [fst auditLogger with_audit].
    now rewrite log_other_event by (simpl; discriminate). }
  set (candidates := PolicyLoader.listPoliciesForAgent _ _ _).
  destruct (decision (PolicyEngine.evaluateFirst candidates (without_context params)
                        (Some spent))) eqn:Edecision; [| discriminate ..].
  apply evaluateFirst_allow_inv in Edecision as (policy & Hin & Hcred & Hfirst & Hallow).
  rewrite Hfirst, (evaluate_allow_result _ _ _ Hallow). simpl.
  destruct (Vault.getCredential (req_credential_name params) (vault deps))
    as [[credential|]|e] eqn:Eget; simpl; try discriminate.
  assert (Hlisted : In policy (PolicyLoader.listPolicies (PolicyLoader.set_all policies))).
  { subst candidates. simpl in Hin. unfold PolicyLoader.listPoliciesForAgent in Hin.
    apply List.filter_In in Hin as [Hin _]. now rewrite Hloaded in Hin. }
  rewrite Hloaded, (loaded_getPolicy _ _ Hlisted). simpl.
  destruct (Date_in_range _); [| discriminate].
  intros [= <- <- <- <-].
  eexists policy, credential, _. simpl. rewrite lookup_insert_eq.
  repeat split; try reflexivity; try assumption.
  - intros c. rewrite <- Hspent. now apply evaluate_allow_iff.
Qed.
End PipelineMore.

Section UsageProofs.
Context {num : Type} `{JsNumber num} `{JsonRuntime num}.
Import RequestCredential ReportUsage.


(** X27.  A usage report with an amount is what spends: for a live token,
    when the report is stamped in month [m] and the runtime parses back
    the details it has written, the monthly spending of the token's
    credential grows by exactly the amount reported. *)
Theorem report_usage_spends_the_amount (params : UsageParams num) (now_ms : Z)
    (now m today : string) (deps : Deps) (token : ScopedToken num) (amount : num) :
  tokenStore deps !! up_token_id params = Some token ->
  now_ms < expires_at token ->
  up_amount params = Some amount ->
  month_prefix m -> String.prefix m now = true ->
  JSON_parse (JSON_stringify
                (usage_details amount (up_currency params) (up_details params)))
  = Some (usage_details amount (up_currency params) (up_details params)) ->
  AuditLogger.getMonthlySpending
    (auditLogger (fst (report_usage params now_ms now deps)))
    (tok_credential_name token) (Some m) today
  = num_add (AuditLogger.getMonthlySpending (auditLogger deps)
               (tok_credential_name token) (Some m) today) amount.
Proof.
  intros Htoken Hlive Hamount Hm Hnow Hparse.
  unfold report_usage, TokenStore.get. rewrite Htoken.
  destruct (Z.geb_spec now_ms (expires_at token)); [lia |].
  cbv zeta. cbn [fst snd auditLogger tokenStore with_audit with_tokens].
  eapply log_usage; try reflexivity; try eassumption.
  - simpl. now destruct (str_truthy now).
  - simpl. now rewrite Hamount.
  - reflexivity.
Qed.

Lemma report_usage_live (params : UsageParams num) (now_ms : Z) (now : string)
    (deps : Deps) (token : ScopedToken num) :
  tokenStore deps !! up_token_id params = Some token ->
  now_ms < expires_at token ->
  exists row,
    report_usage params now_ms now deps
    = ({| vault := vault deps; policyLoader := policyLoader deps;
          auditLogger := (auditLogger deps ++ [row])%list;
          tokenStore := <[up_token_id params := TokenStore.mark token]>
                          (tokenStore deps) |},
       recorded (up_token_id params))
    /\ row_event row = credential_used.
Proof.
  intros Htoken Hlive. unfold report_usage, TokenStore.get. rewrite Htoken.
  destruct (Z.geb_spec now_ms (expires_at token)); [lia |]. simpl.
  unfold TokenStore.markUsed. rewrite Htoken. simpl.
  eexists. split; reflexivity.
Qed.

(** X28.  The [used] flag stops nothing: a token that was reported once can
    be reported again for as long as it has not expired, and each report
    appends its own [credential_used] entry. *)
Theorem used_token_can_be_reported_again (params : UsageParams num)
    (first second : Z) (now now' : string) (deps : Deps) (token : ScopedToken num) :
  tokenStore deps !! up_token_id params = Some token ->
  first < expires_at token -> second < expires_at token ->
  let once := report_usage params first now deps in
  let twice := report_usage params second now' (fst once) in
  snd once = recorded (up_token_id params)
  /\ tokenStore (fst once) !! up_token_id params = Some (TokenStore.mark token)
  /\ snd twice = recorded (up_token_id params)
  /\ map row_event (auditLogger (fst twice))
     = (map row_event (auditLogger deps) ++ [credential_used; credential_used])%list.
Proof.
  intros Htoken Hfirst Hsecond once twice. subst twice once.
  destruct (report_usage_live params first now deps token Htoken Hfirst)
    as (row1 & -> & Hev1).
  cbn [fst snd tokenStore].
  assert (Hmarked : <[up_token_id params := TokenStore.mark token]> (tokenStore deps)
                    !! up_token_id params = Some (TokenStore.mark token))
    by apply lookup_insert_eq.
  match goal with
  | |- context [report_usage params second now' ?d] =>
      destruct (report_usage_live params second now' d (TokenStore.mark token)
                  Hmarked Hsecond) as (row2 & -> & Hev2)
  end.
  cbn [fst snd auditLogger]. repeat split; [exact Hmarked |].
  rewrite !map_app. simpl. now rewrite Hev1, Hev2, <- app_assoc.
Qed.
End UsageProofs.

(** ** The extras at concrete inputs *)

Lemma toy_round_trips : crypto_round_trips.
Proof.
  split.
  - intros k nonce plain. simpl. now rewrite String.eqb_refl.
  - intros salt. simpl. apply list_byte_of_string_of_list_byte.
Defined.

Lemma empty_vault_serving : serving empty_vault.
Proof. split; [reflexivity | exists 0%nat; reflexivity]. Defined.

Lemma scenario_vault_serving : serving scenario_vault.
Proof. split; [reflexivity | exists 0%nat; reflexivity]. Defined.

Lemma example_log_numbered : well_numbered example_log.
Proof. reflexivity. Defined.

Lemma january_is_a_month : month_prefix "2025-01".
Proof. split; [discriminate | reflexivity]. Defined.

Lemma issue_leaves_others_witness :
  "t-1" <> "t-2"
  /\ snd (TokenStore.get "t-1" 2000
            (fst (TokenStore.issue example_params 1500 "t-2"
                    (fst (TokenStore.issue example_params 1000 "t-1" ∅)))))
     = snd (TokenStore.get "t-1" 2000
              (fst (TokenStore.issue example_params 1000 "t-1" ∅))).
Proof.
  assert (Hne : "t-1" <> "t-2") by discriminate.
  split; [exact Hne |].
  exact (issue_leaves_others example_params 1500 "t-2" "t-1" 2000
           (fst (TokenStore.issue example_params 1000 "t-1" ∅)) Hne).
Defined.

Lemma add_then_get_witness :
  (crypto_round_trips /\ serving empty_vault)
  /\ Vault.getCredential "stripe-key" scenario_vault
     = Returns (Some {| cred_id := "a3bb189e-8bf9-3888-9912-ace4e6543002";
                        cred_name := "stripe-key"; cred_type := api_key;
                        cred_value := "test-credential-value-abc123";
                        cred_metadata := [];
                        cred_created_at := "2025-01-15T09:00:00.000Z";
                        cred_updated_at := "2025-01-15T09:00:00.000Z" |}).
Proof.
  split; [split; [exact toy_round_trips | exact empty_vault_serving] |].
  exact (proj1 (proj2
           (add_then_get "stripe-key" api_key "test-credential-value-abc123" []
              "a3bb189e-8bf9-3888-9912-ace4e6543002" "2025-01-15T09:00:00.000Z"
              (repeat Byte.x07 12) empty_vault toy_round_trips empty_vault_serving
              eq_refl))).
Defined.

Lemma add_existing_name_witness :
  serving scenario_vault
  /\ Vault.addCredential "stripe-key" secret "another value" [] "id-2"
       "2025-02-01T00:00:00.000Z" (repeat Byte.x09 12) scenario_vault
     = (scenario_vault, Throws SqliteError).
Proof.
  split; [exact scenario_vault_serving |].
  exact (add_existing_name_throws "stripe-key" secret "another value" [] "id-2"
           "2025-02-01T00:00:00.000Z" (repeat Byte.x09 12) scenario_vault
           scenario_vault_serving eq_refl).
Defined.

Lemma remove_then_get_witness :
  serving scenario_vault
  /\ snd (Vault.removeCredential "stripe-key" scenario_vault) = Returns true
  /\ Vault.getCredential "stripe-key"
       (fst (Vault.removeCredential "stripe-key" scenario_vault)) = Returns None.
Proof.
  split; [exact scenario_vault_serving |].
  destruct (remove_then_get "stripe-key" scenario_vault scenario_vault_serving)
    as (Hanswer & Hgone & _).
  split; [exact Hanswer | exact Hgone].
Defined.

Lemma writes_need_unlocked_witness :
  Vault.key (Vault.close scenario_vault) = None
  /\ Vault.removeCredential "stripe-key" (Vault.close scenario_vault)
     = (Vault.close scenario_vault,
        Throws (Error "Vault is locked. Call initialize() or unlock() first.")).
Proof.
  split; [reflexivity |].
  exact (proj2 (writes_need_unlocked_vault "stripe-key" api_key "v" [] "id" "now"
                  [] (Vault.close scenario_vault) eq_refl)).
Defined.

Lemma initialize_once_witness :
  (Vault.db_open (Vault.new [] []) = true
   /\ Map_get "salt" (Vault.wallet_meta (Vault.new [] [])) = None)
  /\ Vault.initialize "another passphrase" (repeat Byte.x01 32) empty_vault
     = (empty_vault,
        Throws (Error "Vault is already initialized. Use unlock() instead.")).
Proof.
  split; [split; reflexivity |].
  exact (proj1 (proj2 (proj2 (proj2 (proj2
           (initialize_once "integration-test-pass" "another passphrase"
              example_salt (repeat Byte.x01 32) (Vault.new [] [])
              eq_refl eq_refl)))))).
Defined.

Lemma reopen_witness :
  (crypto_round_trips /\ Vault.db_open scenario_vault = true
   /\ Map_get "salt" (Vault.wallet_meta scenario_vault)
      = Some (base64_encode example_salt)
   /\ key_bytes scenario_vault
      = Some (Crypto.deriveKey "integration-test-pass" example_salt))
  /\ Vault.getCredential "stripe-key"
       (fst (Vault.unlock "integration-test-pass"
               (Vault.new (Vault.wallet_meta (Vault.close scenario_vault))
                  (Vault.credentials (Vault.close scenario_vault)))))
     = Vault.getCredential "stripe-key" scenario_vault.
Proof.
  split; [repeat split; exact (proj1 toy_round_trips) || exact (proj2 toy_round_trips) |].
  exact (proj2 (reopen_reads_the_same "integration-test-pass" example_salt
                  scenario_vault "stripe-key" toy_round_trips eq_refl eq_refl eq_refl)).
Defined.

Lemma any_passphrase_witness :
  (Vault.db_open (Vault.new (Vault.wallet_meta scenario_vault)
                    (Vault.credentials scenario_vault)) = true
   /\ is_Some (Map_get "salt" (Vault.wallet_meta scenario_vault)))
  /\ snd (Vault.unlock "not the passphrase"
            (Vault.new (Vault.wallet_meta scenario_vault)
               (Vault.credentials scenario_vault))) = Returns tt.
Proof.
  assert (Hsalt : is_Some (Map_get "salt" (Vault.wallet_meta scenario_vault)))
    by (eexists; reflexivity).
  split; [split; [reflexivity | exact Hsalt] |].
  exact (proj1 (any_passphrase_lists "not the passphrase"
                  (Vault.new (Vault.wallet_meta scenario_vault)
                     (Vault.credentials scenario_vault)) eq_refl Hsalt)).
Defined.

Lemma names_stay_unique_witness :
  List.NoDup (map rec_name (Vault.credentials scenario_vault))
  /\ List.NoDup
       (map rec_name
          (Vault.credentials
             (fst (Vault.addCredential "github-token" oauth_token "ghp_value" []
                     "id-3" "2025-02-01T00:00:00.000Z" (repeat Byte.x03 12)
                     scenario_vault)))).
Proof.
  assert (Hnd : List.NoDup (map rec_name (Vault.credentials scenario_vault)))
    by (repeat constructor; simpl; tauto).
  split; [exact Hnd |].
  exact (proj1 (names_stay_unique "github-token" oauth_token "ghp_value" []
                  "id-3" "2025-02-01T00:00:00.000Z" (repeat Byte.x03 12)
                  scenario_vault Hnd)).
Defined.

Lemma log_numbering_witness :
  well_numbered example_log
  /\ snd (AuditLogger.log requested_entry "2025-03-01T00:00:00.000Z" example_log) = 7
  /\ well_numbered
       (fst (AuditLogger.log requested_entry "2025-03-01T00:00:00.000Z" example_log)).
Proof.
  split; [exact example_log_numbered |].
  destruct (log_appends_with_next_id requested_entry "2025-03-01T00:00:00.000Z"
              example_log example_log_numbered) as (Hid & _ & Hnum & _).
  split; [exact Hid | exact Hnum].
Defined.


Lemma other_events_witness :
  aud_event requested_entry <> credential_used
  /\ AuditLogger.getMonthlySpending
       (fst (AuditLogger.log requested_entry "2025-01-15T10:00:00.000Z" example_log))
       "stripe-key" (Some "2025-01") "2025-01-31T00:00:00.000Z"
     = AuditLogger.getMonthlySpending example_log "stripe-key" (Some "2025-01")
         "2025-01-31T00:00:00.000Z".
Proof.
  assert (Hev : aud_event requested_entry <> credential_used) by discriminate.
  split; [exact Hev |].
  exact (other_events_cost_nothing requested_entry "2025-01-15T10:00:00.000Z"
           example_log "stripe-key" (Some "2025-01") "2025-01-31T00:00:00.000Z" Hev).
Defined.

Lemma usage_entry_witness :
  (month_prefix "2025-01" /\ aud_event used_entry = credential_used
   /\ JSON_parse (amount_text 15) = Some (JObj [("amount", JNum 15)]))
  /\ AuditLogger.getMonthlySpending
       (fst (AuditLogger.log used_entry "2025-01-25T10:00:00.001Z" example_log))
       "stripe-key" (Some "2025-01") "2025-01-31T00:00:00.000Z"
     = num_add (AuditLogger.getMonthlySpending example_log "stripe-key"
                  (Some "2025-01") "2025-01-31T00:00:00.000Z") 15.
Proof.
  split; [split; [exact january_is_a_month | split; reflexivity] |].
  exact (usage_entry_adds_its_amount used_entry "2025-01-25T10:00:00.001Z"
           example_log "stripe-key" "2025-01" (amount_text 15)
           "2025-01-31T00:00:00.000Z" (JObj [("amount", JNum 15)]) 15
           january_is_a_month eq_refl eq_refl eq_refl eq_refl eq_refl eq_refl).
Defined.

Lemma no_amount_witness :
  req_amount unpriced_request = None
  /\ (PolicyEngine.evaluate test_stripe unpriced_request (Some 0)
      = PolicyEngine.evaluate test_stripe unpriced_request (Some 1000000)
      /\ decision (PolicyEngine.evaluate test_stripe unpriced_request (Some 0))
         <> require_approval)
  /\ decision (PolicyEngine.evaluate test_stripe unpriced_request (Some 1000000))
     = allow
  /\ decision (PolicyEngine.evaluate test_stripe happy_request (Some 1000000))
     = deny
  /\ decision (PolicyEngine.evaluate test_stripe happy_request (Some 0)) = allow.
Proof.
  split; [reflexivity |]. split; [| repeat split].
  exact (no_amount_no_budget test_stripe unpriced_request (Some 0)
           (Some 1000000) eq_refl).
Defined.

Lemma context_overrides_witness :
  (req_context masked_request
   = Some [("agent_id", JStr "test-agent"); ("region", JStr "eu")]
   /\ List.NoDup (map fst [("agent_id", JStr "test-agent" : json Z);
                           ("region", JStr "eu")]))
  /\ Map_get "agent_id" (PolicyEngine.celContext masked_request)
     = Some (JStr "test-agent").
Proof.
  assert (Hnd : List.NoDup (map fst [("agent_id", JStr "test-agent" : json Z);
                                     ("region", JStr "eu")])).
  { repeat constructor; simpl; intuition discriminate. }
  split; [split; [reflexivity | exact Hnd] |].
  exact (context_overrides_request_fields masked_request
           [("agent_id", JStr "test-agent"); ("region", JStr "eu")] "agent_id"
           eq_refl Hnd).
Defined.

Lemma loaded_policies_witness :
  PolicyLoader.loadFromObject policy_document = Some [("test-stripe", test_stripe)]
  /\ List.Forall validated_policy
       (PolicyLoader.listPolicies [("test-stripe", test_stripe)]).
Proof.
  split; [reflexivity |].
  exact (loaded_policies_are_validated policy_document
           [("test-stripe", test_stripe)] eq_refl).
Defined.

Lemma distinct_names_witness :
  List.NoDup (map pol_name [plain_policy "deploy" "github-token" "agent-1";
                            plain_policy "billing" "stripe-key" "agent-2"])
  /\ PolicyLoader.listPolicies
       (PolicyLoader.set_all [plain_policy "deploy" "github-token" "agent-1";
                              plain_policy "billing" "stripe-key" "agent-2"])
     = [plain_policy "deploy" "github-token" "agent-1";
        plain_policy "billing" "stripe-key" "agent-2"].
Proof.
  assert (Hnd : List.NoDup
                  (map pol_name [plain_policy "deploy" "github-token" "agent-1";
                                 plain_policy "billing" "stripe-key" "agent-2"])).
  { repeat constructor; simpl; intuition discriminate. }
  split; [exact Hnd |].
  exact (proj1 (distinct_names_keep_order
                  [plain_policy "deploy" "github-token" "agent-1";
                   plain_policy "billing" "stripe-key" "agent-2"] Hnd)).
Defined.

Lemma granted_witness :
  (RequestCredential.policyLoader (scenario_deps scenario_vault)
   = PolicyLoader.set_all [test_stripe]
   /\ snd (RequestCredential.request_credential happy_request scenario_readings
             (scenario_deps scenario_vault))
      = Returns (granted "0b7e3a52-5d0c-4c59-9a55-3f1c8f0a2d11"
                   "test-credential-value-abc123" 1736935260002 []))
  /\ exists policy credential token,
       In policy (PolicyLoader.listPoliciesForAgent
                    (RequestCredential.policyLoader (scenario_deps scenario_vault))
                    "test-agent" None)
       /\ cred_value credential = "test-credential-value-abc123"
       /\ 1736935260002 = 1736935200002 + default 300 (pol_ttl policy) * 1000
       /\ RequestCredential.tokenStore
            (fst (RequestCredential.request_credential happy_request
                    scenario_readings (scenario_deps scenario_vault)))
          !! "0b7e3a52-5d0c-4c59-9a55-3f1c8f0a2d11" = Some token.
Proof.
  assert (Hloaded : RequestCredential.policyLoader (scenario_deps scenario_vault)
                    = PolicyLoader.set_all [test_stripe]) by reflexivity.
  assert (Hreply : snd (RequestCredential.request_credential happy_request
                          scenario_readings (scenario_deps scenario_vault))
                   = Returns (granted "0b7e3a52-5d0c-4c59-9a55-3f1c8f0a2d11"
                                "test-credential-value-abc123" 1736935260002 []))
    by (vm_compute; reflexivity).
  split; [split; assumption |].
  destruct (granted_is_backed happy_request scenario_readings
              (scenario_deps scenario_vault) [test_stripe]
              "0b7e3a52-5d0c-4c59-9a55-3f1c8f0a2d11" "test-credential-value-abc123"
              1736935260002 [] Hloaded Hreply)
    as (policy & credential & token & Hin & _ & _ & _ & Hvalue & _ & _ & Hexp
        & Hstored & _).
  exists policy, credential, token.
  split; [exact Hin |]. split; [symmetry; exact Hvalue |].
  split; [exact Hexp | exact Hstored].
Defined.

Lemma report_spends_witness :
  (RequestCredential.tokenStore usage_deps !! "t-1" = Some example_token
   /\ 30000 < expires_at example_token
   /\ month_prefix "2025-01")
  /\ @AuditLogger.getMonthlySpending Z Z_number json_usage
       (RequestCredential.auditLogger
          (fst (@ReportUsage.report_usage Z json_usage usage_report 30000
                  "2025-01-28T12:00:00.000Z" usage_deps)))
       "stripe-key" (Some "2025-01") "2025-01-31T00:00:00.000Z"
     = num_add
         (@AuditLogger.getMonthlySpending Z Z_number json_usage
            (RequestCredential.auditLogger usage_deps)
            "stripe-key" (Some "2025-01") "2025-01-31T00:00:00.000Z") 25.
Proof.
  assert (Hlive : 30000 < expires_at example_token) by (vm_compute; reflexivity).
  split; [split; [reflexivity | split; [exact Hlive | exact january_is_a_month]] |].
  exact (@report_usage_spends_the_amount Z Z_number json_usage usage_report 30000
           "2025-01-28T12:00:00.000Z" "2025-01" "2025-01-31T00:00:00.000Z"
           usage_deps example_token 25 eq_refl Hlive eq_refl january_is_a_month
           eq_refl eq_refl).
Defined.

Lemma report_again_witness :
  (RequestCredential.tokenStore usage_deps !! "t-1" = Some example_token
   /\ 30000 < expires_at example_token /\ 40000 < expires_at example_token)
  /\ snd (ReportUsage.report_usage usage_report 40000 "2025-01-28T12:00:10.000Z"
            (fst (ReportUsage.report_usage usage_report 30000
                    "2025-01-28T12:00:00.000Z" usage_deps)))
     = recorded "t-1".
Proof.
  assert (H1 : 30000 < expires_at example_token) by (vm_compute; reflexivity).
  assert (H2 : 40000 < expires_at example_token) by (vm_compute; reflexivity).
  split; [split; [reflexivity | split; assumption] |].
  exact (proj1 (proj2 (proj2
           (used_token_can_be_reported_again usage_report 30000 40000
              "2025-01-28T12:00:00.000Z" "2025-01-28T12:00:10.000Z" usage_deps
              example_token eq_refl H1 H2)))).
Defined.
